(** * yadro_test: the configuration diff/patch engine and the class-model
      parser, tree builder and renderer

    A shallow embedding of [config_data.py], [xml_data.py] and [file.py].

    - Python dictionaries read from JSON ([Dict[str, Any]]) are finite maps
      from strings to JSON values; Python's [==] on dictionaries does not
      look at insertion order, so [gmap] loses nothing the code observes.
    - The dictionaries of [xml_data.py] are iterated ([.values()]), so they
      are kept as insertion-ordered association lists.
    - A Python [set] is a [gset]; the order in which a set is iterated is
      not specified by the language, so it is a parameter [set_iter] of the
      development, constrained only to enumerate the set.
    - The files of [file.py] are a finite map from names to texts, passed
      through the two methods together with the lines they print. *)

From Stdlib Require Import ZArith String Ascii.
From stdpp Require Import gmap strings list fin_maps.

#[local] Open Scope string_scope.

(* ===================================================================== *)
(** ** JSON values and Python's [==] on them *)
(* ===================================================================== *)

Module Json.

(** What [json.load] produces: [None], [bool], [int], [str], [list] and
    [dict] with string keys.  Floats are left out. *)
#[warnings="-register-all"]
Inductive value :=
  | VNone
  | VBool (b : bool)
  | VInt (z : Z)
  | VStr (s : string)
  | VList (l : list value)
  | VDict (d : gmap string value).

#[global] Instance value_inhabited : Inhabited value := populate VNone.

(** Python's [a == b].  [bool] is a subclass of [int]: [True == 1] and
    [False == 0].  Lists are compared element by element; dictionaries
    have the same length and every key of the left one is in the right one
    with an equal value. *)
Fixpoint py_eq (a b : value) {struct a} : bool :=
  match a, b with
  | VNone, VNone => true
  | VBool x, VBool y => Z.eqb (Z.b2z x) (Z.b2z y)
  | VBool x, VInt y => Z.eqb (Z.b2z x) y
  | VInt x, VBool y => Z.eqb x (Z.b2z y)
  | VInt x, VInt y => Z.eqb x y
  | VStr x, VStr y => String.eqb x y
  | VList la, VList lb =>
      (fix go (la lb : list value) {struct la} : bool :=
         match la, lb with
         | [], [] => true
         | x :: la', y :: lb' => py_eq x y && go la' lb'
         | _, _ => false
         end) la lb
  | VDict da, VDict db =>
      Nat.eqb (size da) (size db) &&
      map_fold (fun k v acc =>
                  acc && match db !! k with
                         | Some w => py_eq v w
                         | None => false
                         end) true da
  | _, _ => false
  end.

(** Python's [a != b]. *)
Definition py_ne (a b : value) : bool := negb (py_eq a b).

(** The size of a value, the measure for induction over nested values. *)
Fixpoint vsize (v : value) : nat :=
  match v with
  | VList l => S (foldr (fun x acc => vsize x + acc) 0 l)
  | VDict d => S (map_fold (fun _ x acc => vsize x + acc) 0 d)
  | _ => 1
  end.

End Json.

(* ===================================================================== *)
(** ** config_data.py: ConfigData *)
(* ===================================================================== *)

Module ConfigData.
Import Json.

(** An entry of ["additions"]: [{"key": k, "value": v}]. *)
Record addition := Addition { add_key : string; add_value : value }.

(** An entry of ["updates"]: [{"key": k, "from": v, "to": w}]. *)
Record update := Update { upd_key : string; upd_from : value; upd_to : value }.

(** The diff document.  [do_config_changes] reads each of the three lists
    with [.get(name, [])], so a missing list is the empty one. *)
Record diff_config := DiffConfig {
  additions : list addition;
  deletions : list string;
  updates : list update
}.

(** [d[k]] for a key taken from [d.keys()]; the [KeyError] branch cannot be
    reached there and is filled with [None]. *)
Definition getitem (d : gmap string value) (k : string) : value :=
  default VNone (d !! k).

(** Truth value of a string used as a condition: [if key:]. *)
Definition truthy (key : string) : bool :=
  match key with
  | EmptyString => false
  | String _ _ => true
  end.

Section SetOrder.
(** The order in which [for key in <set>] visits the elements. *)
Variable set_iter : gset string → list string.

Definition find_differences (old_config new_config : gmap string value)
  : diff_config :=
  let old_params := dom old_config in
  let new_params := dom new_config in
  {| additions :=
       (fun key => Addition key (getitem new_config key))
         <$> set_iter (new_params ∖ old_params);
     deletions := set_iter (old_params ∖ new_params);
     updates :=
       (fun key =>
          Update key (getitem old_config key) (getitem new_config key))
         <$> filter
               (fun key =>
                  py_ne (getitem old_config key) (getitem new_config key)
                  = true)
               (set_iter (old_params ∩ new_params)) |}.

(** The first loop: [new_json[key] = value] unless [key] is falsy. *)
Definition apply_addition (new_json : gmap string value) (a : addition)
  : gmap string value :=
  if truthy (add_key a) then <[add_key a := add_value a]> new_json
  else new_json.

(** The second loop: [new_json[key] = new_value] unless [key] is falsy. *)
Definition apply_update (new_json : gmap string value) (u : update)
  : gmap string value :=
  if truthy (upd_key u) then <[upd_key u := upd_to u]> new_json
  else new_json.

(** [set(old_config) - set(new_json) - set(diff_config.get("deletions", []))] *)
Definition unchanged_params (old_config new_json : gmap string value)
    (dels : list string) : gset string :=
  dom old_config ∖ dom new_json ∖ list_to_set dels.

Definition do_config_changes (old_config : gmap string value)
    (diff : diff_config) : gmap string value :=
  let new_json := foldl apply_addition ∅ (additions diff) in
  let new_json := foldl apply_update new_json (updates diff) in
  foldl (fun acc param => <[param := getitem old_config param]> acc)
        new_json
        (set_iter (unchanged_params old_config new_json (deletions diff))).
End SetOrder.

(** The key sets of the three lists of a diff. *)
Definition addition_keys (d : diff_config) : gset string :=
  list_to_set (add_key <$> additions d).
Definition deletion_keys (d : diff_config) : gset string :=
  list_to_set (deletions d).
Definition update_keys (d : diff_config) : gset string :=
  list_to_set (upd_key <$> updates d).

(** The keys both documents have with values that are equal ([==]). *)
Definition equal_keys (old_config new_config : gmap string value) : gset string :=
  filter (fun k => py_eq (getitem old_config k) (getitem new_config k) = true)
         (dom old_config ∩ dom new_config).

(** The last entry of [l] whose key is [k], if any: what a sequence of
    dictionary writes leaves under [k]. *)
Definition last_addition (k : string) (l : list addition) : option value :=
  add_value <$> last (filter (fun a => add_key a = k) l).
Definition last_update (k : string) (l : list update) : option value :=
  upd_to <$> last (filter (fun u => upd_key u = k) l).

(** A diff without its entries whose key is falsy. *)
Definition without_falsy_keys (d : diff_config) : diff_config :=
  {| additions := filter (fun a => truthy (add_key a) = true) (additions d);
     deletions := deletions d;
     updates := filter (fun u => truthy (upd_key u) = true) (updates d) |}.

(** Sample documents: [{"a": 1, "b": 2}] and [{"b": 3, "c": 4}]. *)
Definition old_ab : gmap string value :=
  <["a" := VInt 1]> (<["b" := VInt 2]> ∅).
Definition new_bc : gmap string value :=
  <["b" := VInt 3]> (<["c" := VInt 4]> ∅).

(** One admissible iteration order: the one of [elements]. *)
Definition elements_order (X : gset string) : list string := elements X.

End ConfigData.

(* ===================================================================== *)
(** ** xml_data.py: XMLComposite, XMLBuilder, XMLParser *)
(* ===================================================================== *)

Module XmlData.

(** *** Python strings *)

(** ["\n"] *)
Definition nl : string := String (ascii_of_nat 10) "".

(** [f"{x}"] for a value that is a [str] or [None] (what [elem.get(key)]
    returns). *)
Definition fmt (x : option string) : string := default "None" x.

(** [s * n] *)
Fixpoint str_repeat (s : string) (n : nat) : string :=
  match n with
  | O => ""
  | S n' => s +:+ str_repeat s n'
  end.

(** [sep.join(lines)] *)
Definition join (sep : string) (lines : list string) : string :=
  String.concat sep lines.

(** [sub in s] *)
Fixpoint contains (sub s : string) : bool :=
  String.prefix sub s ||
  match s with
  | EmptyString => false
  | String _ s' => contains sub s'
  end.

(** [s.split(sep)] for a non-empty [sep]: the text is read from the left;
    where [sep] starts the current field ends and reading goes on after
    [sep].  [skip] counts the characters of a separator still to pass. *)
Fixpoint split_from (sep : string) (skip : nat) (s : string) : list string :=
  match s with
  | EmptyString => [""]
  | String c s' =>
      match skip with
      | S k => split_from sep k s'
      | O =>
          if String.prefix sep s
          then "" :: split_from sep (String.length sep - 1) s'
          else match split_from sep 0 s' with
               | field :: fields => String c field :: fields
               | [] => [String c ""]
               end
      end
  end.

Definition split (s sep : string) : list string := split_from sep 0 s.

(** [s.lower()] on ASCII letters; the other bytes are kept.  (Python also
    lowers non-ASCII letters; none of them becomes a letter of ["true"],
    the only string a lowered value is compared with.) *)
Definition lower_ascii (c : ascii) : ascii :=
  let n := nat_of_ascii c in
  if (65 <=? n)%nat && (n <=? 90)%nat then ascii_of_nat (n + 32) else c.

Fixpoint lower (s : string) : string :=
  match s with
  | EmptyString => EmptyString
  | String c s' => String (lower_ascii c) (lower s')
  end.

(** *** Exceptions *)

Inductive exn := KeyError | TypeError | RecursionError.

Inductive result (A : Type) :=
  | Ok (a : A)
  | Raise (e : exn).
Arguments Ok {A} a.
Arguments Raise {A} e.

(** Sequencing: an exception ends the computation. *)
#[global] Instance result_bind : MBind result := fun A B k r =>
  match r with
  | Ok a => k a
  | Raise e => Raise e
  end.

#[global] Instance result_fmap : FMap result := fun A B f r =>
  match r with
  | Ok a => Ok (f a)
  | Raise e => Raise e
  end.

(** A loop that calls [f] on each element in turn and stops at the first
    exception. *)
Fixpoint mapM {A B} (f : A → result B) (l : list A) : result (list B) :=
  match l with
  | [] => Ok []
  | x :: l' => y ← f x; ys ← mapM f l'; Ok (y :: ys)
  end.

(** *** Insertion-ordered dictionaries *)

Section odict.
Context {K V : Type} `{EqDecision K}.

(** [d[k]], [None] standing for [KeyError]; also [k in d]. *)
Fixpoint dict_get (k : K) (d : list (K * V)) : option V :=
  match d with
  | [] => None
  | (k', v) :: d' => if decide (k = k') then Some v else dict_get k d'
  end.

(** [d[k] = v]: a key already present keeps its place. *)
Fixpoint dict_set (k : K) (v : V) (d : list (K * V)) : list (K * V) :=
  match d with
  | [] => [(k, v)]
  | (k', v') :: d' =>
      if decide (k = k') then (k, v) :: d' else (k', v') :: dict_set k v d'
  end.

(** In-place change of the object stored under [k], when [k in d]. *)
Fixpoint dict_alter (f : V → V) (k : K) (d : list (K * V)) : list (K * V) :=
  match d with
  | [] => []
  | (k', v) :: d' =>
      if decide (k = k') then (k', f v) :: d' else (k', v) :: dict_alter f k d'
  end.

(** [d.keys()] and [d.values()] *)
Definition dict_keys (d : list (K * V)) : list K := d.*1.
Definition dict_values (d : list (K * V)) : list V := d.*2.
End odict.

(** The keys of [l] in the order of their first occurrence. *)
Fixpoint first_seen {K} `{EqDecision K} (seen l : list K) : list K :=
  match l with
  | [] => []
  | k :: l' =>
      if decide (k ∈ seen) then first_seen seen l'
      else k :: first_seen (seen ++ [k]) l'
  end.

(** *** XMLComposite *)

#[warnings="-register-all"]
Inductive XMLComposite := mkXMLComposite {
  name : option string;
  attribute_value : option string;
  children : list XMLComposite
}.

Definition indent_str (indent : Z) : string :=
  str_repeat "    " (Z.to_nat indent).

Definition open_tag (self_name : option string) : string :=
  "<" +:+ fmt self_name +:+ ">".
Definition close_tag (self_name : option string) : string :=
  "</" +:+ fmt self_name +:+ ">".

Fixpoint to_xml (self : XMLComposite) (indent : Z) : string :=
  match self with
  | mkXMLComposite self_name self_attribute_value self_children =>
      match self_children with
      | _ :: _ =>
          let lines :=
            ([indent_str indent +:+ open_tag self_name]
             ++ map (fun child => to_xml child (indent + 1)) self_children
             ++ [indent_str indent +:+ close_tag self_name])%list in
          join nl lines
      | [] =>
          match self_attribute_value with
          | Some (String c v) =>
              indent_str indent +:+ open_tag self_name +:+ String c v
              +:+ close_tag self_name
          | _ =>
              indent_str indent +:+ open_tag self_name +:+ nl
              +:+ indent_str indent +:+ close_tag self_name
          end
      end
  end.

(** The lines of the rendering, one string per line. *)
Fixpoint to_xml_lines (self : XMLComposite) (indent : Z) : list string :=
  match self with
  | mkXMLComposite self_name self_attribute_value self_children =>
      match self_children with
      | _ :: _ =>
          ([indent_str indent +:+ open_tag self_name]
           ++ concat (map (fun child => to_xml_lines child (indent + 1))
                          self_children)
           ++ [indent_str indent +:+ close_tag self_name])%list
      | [] =>
          match self_attribute_value with
          | Some (String c v) =>
              [indent_str indent +:+ open_tag self_name +:+ String c v
               +:+ close_tag self_name]
          | _ =>
              [indent_str indent +:+ open_tag self_name;
               indent_str indent +:+ close_tag self_name]
          end
      end
  end.

(** [n] spaces. *)
Definition spaces (n : nat) : string := str_repeat " " n.

(** *** The class records exchanged between parser and builder *)

(** [{'name': ..., 'type': ...}] *)
Record param := Param {
  param_name : option string;
  param_type : option string
}.

(** [{'class', 'documentation', 'isRoot', 'parameters'}] and, once the
    class is the source of an aggregation, ['min'] and ['max']. *)
Record class_data := ClassData {
  class : option string;
  documentation : string;
  isRoot : bool;
  parameters : list param;
  min : option string;
  max : option string
}.

(** [{'source', 'target', 'min', 'max'}] *)
Record aggregation := Aggregation {
  source : option string;
  target : option string;
  agg_min : string;
  agg_max : string
}.

#[global] Instance param_eq_dec : EqDecision param.
Proof. solve_decision. Defined.
#[global] Instance class_data_eq_dec : EqDecision class_data.
Proof. solve_decision. Defined.
#[global] Instance aggregation_eq_dec : EqDecision aggregation.
Proof. solve_decision. Defined.

(** *** XMLBuilder *)

Record XMLBuilder := mkXMLBuilder {
  data : list (option string * class_data);
  root : option class_data
}.

(** The loop of [_find_root]; falling off its end returns [None]. *)
Fixpoint find_root_loop (items : list class_data) : option class_data :=
  match items with
  | [] => None
  | item :: items' => if isRoot item then Some item else find_root_loop items'
  end.

Definition _find_root (self_data : list (option string * class_data))
  : option class_data :=
  find_root_loop (dict_values self_data).

(** [{item['class']: item for item in json_data}] *)
Definition data_of (json_data : list class_data)
  : list (option string * class_data) :=
  foldl (fun d item => dict_set (class item) item d) [] json_data.

Definition XMLBuilder_init (json_data : list class_data) : XMLBuilder :=
  let self_data := data_of json_data in
  {| data := self_data; root := _find_root self_data |}.

(** [depth] is the number of nested calls the interpreter still allows;
    running out of it is Python's [RecursionError]. *)
Fixpoint _build_component_obj (depth : nat)
    (self_data : list (option string * class_data))
    (class_name : option string) : result XMLComposite :=
  match depth with
  | O => Raise RecursionError
  | S depth' =>
      match dict_get class_name self_data with
      | None => Raise KeyError
      | Some item =>
          kids ← mapM
                   (fun p =>
                      if decide (param_type p = Some "class")
                      then _build_component_obj depth' self_data (param_name p)
                      else Ok (mkXMLComposite (param_name p) (param_type p) []))
                   (parameters item);
          Ok (mkXMLComposite class_name None kids)
      end
  end.

(** The body of the loop of [_build_component_obj]. *)
Definition build_child (depth : nat)
    (self_data : list (option string * class_data)) (p : param)
  : result XMLComposite :=
  if decide (param_type p = Some "class")
  then _build_component_obj depth self_data (param_name p)
  else Ok (mkXMLComposite (param_name p) (param_type p) []).

(** [self.root['class']] raises [TypeError] when [self.root] is [None]. *)
Definition build (depth : nat) (self : XMLBuilder) : result string :=
  match root self with
  | None => Raise TypeError
  | Some r =>
      root_component ← _build_component_obj depth (data self) (class r);
      Ok (to_xml root_component 0)
  end.

(** *** XMLParser *)

(** An element of the parsed document ([xml.etree.ElementTree.Element]). *)
#[warnings="-register-all"]
Inductive Element := mkElement {
  tag : string;
  attrib : list (string * string);
  elems : list Element
}.

(** [elem.get(key)] and [elem.get(key, default)] *)
Definition get (elem : Element) (key : string) : option string :=
  dict_get key (attrib elem).
Definition get_or (elem : Element) (key dflt : string) : string :=
  default dflt (get elem key).

(** [elem.findall(t)]: the direct children with tag [t], in document
    order. *)
Definition findall (elem : Element) (t : string) : list Element :=
  filter (fun child => tag child = t) (elems elem).

Record XMLParser := mkXMLParser {
  xml_path : string;
  _classes : list (option string * class_data);
  _aggregations : list aggregation
}.

Definition XMLParser_init (path : string) : XMLParser :=
  {| xml_path := path; _classes := []; _aggregations := [] |}.

Definition parse_class (elem : Element) : class_data :=
  {| class := get elem "name";
     documentation := get_or elem "documentation" "";
     isRoot := String.eqb (lower (get_or elem "isRoot" "false")) "true";
     parameters :=
       (fun a => {| param_name := get a "name"; param_type := get a "type" |})
         <$> findall elem "Attribute";
     min := None;
     max := None |}.

(** [multiplicity.split('..')[0] if '..' in multiplicity else multiplicity]
    and the same with index 1.  The index exists whenever the test holds
    ([split_fields_of_contains]). *)
Definition multiplicity_min (multiplicity : string) : string :=
  if contains ".." multiplicity
  then default "" (split multiplicity ".." !! 0%nat)
  else multiplicity.
Definition multiplicity_max (multiplicity : string) : string :=
  if contains ".." multiplicity
  then default "" (split multiplicity ".." !! 1%nat)
  else multiplicity.

Definition parse_aggregation (elem : Element) : aggregation :=
  let multiplicity := get_or elem "sourceMultiplicity" "" in
  {| source := get elem "source";
     target := get elem "target";
     agg_min := multiplicity_min multiplicity;
     agg_max := multiplicity_max multiplicity |}.

(** [self._classes[agg['target']]['parameters'].append({...})] *)
Definition append_class_param (src : option string) (item : class_data)
  : class_data :=
  {| class := class item; documentation := documentation item;
     isRoot := isRoot item;
     parameters := (parameters item ++ [Param src (Some "class")])%list;
     min := min item; max := max item |}.

(** [self._classes[agg['source']].update({'min': ..., 'max': ...})] *)
Definition update_min_max (lo hi : string) (item : class_data) : class_data :=
  {| class := class item; documentation := documentation item;
     isRoot := isRoot item; parameters := parameters item;
     min := Some lo; max := Some hi |}.

(** One turn of the loop of [_resolve_relationships]. *)
Definition resolve_one (classes : list (option string * class_data))
    (agg : aggregation) : list (option string * class_data) :=
  let classes :=
    if dict_get (target agg) classes is Some _
    then dict_alter (append_class_param (source agg)) (target agg) classes
    else classes in
  if dict_get (source agg) classes is Some _
  then dict_alter (update_min_max (agg_min agg) (agg_max agg)) (source agg)
         classes
  else classes.

Definition _resolve_relationships (classes : list (option string * class_data))
    (aggs : list aggregation) : list (option string * class_data) :=
  foldl resolve_one classes aggs.

(** [parse] on the document root that [ET.parse(self.xml_path).getroot()]
    gives; returns the parser after the call and the list it returns. *)
Definition parse (self : XMLParser) (doc : Element)
  : XMLParser * list class_data :=
  let classes :=
    foldl (fun d elem =>
             let class_data := parse_class elem in
             dict_set (class class_data) class_data d)
          (_classes self) (findall doc "Class") in
  let aggs :=
    (_aggregations self ++ (parse_aggregation <$> findall doc "Aggregation"))%list in
  let classes := _resolve_relationships classes aggs in
  ({| xml_path := xml_path self; _classes := classes; _aggregations := aggs |},
   dict_values classes).

(** Following the specification of relationship resolution: the record of
    class [c] once the edges [aggs] are resolved.  A class-typed parameter
    named after the source is appended for each edge whose target is [c],
    in the order of the edges; [min] and [max] are those of the last edge
    whose source is [c], and stay as they were without such an edge. *)
Definition resolved_class (c : option string) (aggs : list aggregation)
    (item : class_data) : class_data :=
  {| class := class item; documentation := documentation item;
     isRoot := isRoot item;
     parameters :=
       (parameters item
        ++ ((fun agg => Param (source agg) (Some "class"))
              <$> filter (fun agg => target agg = c) aggs))%list;
     min := match last (filter (fun agg => source agg = c) aggs) with
            | Some agg => Some (agg_min agg)
            | None => min item
            end;
     max := match last (filter (fun agg => source agg = c) aggs) with
            | Some agg => Some (agg_max agg)
            | None => max item
            end |}.

(** The first two steps of [main.py]: parse, then build the text. *)
Definition render_model (depth : nat) (doc : Element) : result string :=
  let '(_, json_data) := parse (XMLParser_init "input.xml") doc in
  build depth (XMLBuilder_init json_data).

(** *** Depth and leaves, for the properties of the rendering *)

Definition max_list (l : list nat) : nat := foldr Nat.max 0%nat l.

(** The number of levels below a node: 0 for a node without children. *)
Fixpoint tree_depth (t : XMLComposite) : nat :=
  match t with
  | mkXMLComposite _ _ ch =>
      match ch with
      | [] => 0%nat
      | _ :: _ => S (max_list (map tree_depth ch))
      end
  end.

Definition is_class_param (p : param) : Prop := param_type p = Some "class".

#[global] Instance is_class_param_dec p : Decision (is_class_param p).
Proof. unfold is_class_param. apply _. Defined.

(** The number of class references on the longest chain that starts at
    class [c], followed for at most [fuel] references. *)
Fixpoint chain_depth (fuel : nat) (self_data : list (option string * class_data))
    (c : option string) : nat :=
  match fuel with
  | O => 0%nat
  | S fuel' =>
      match dict_get c self_data with
      | None => 0%nat
      | Some item =>
          max_list ((fun p => S (chain_depth fuel' self_data (param_name p)))
                      <$> filter is_class_param (parameters item))
      end
  end.

(** The names of the classes that class record [item] refers to. *)
Definition class_refs (item : class_data) : list (option string) :=
  param_name <$> filter is_class_param (parameters item).

(** The classes visited when the class references are followed from [c],
    in the order of the visits; a class that is reached along several
    chains of references is listed once for each. *)
Fixpoint visits (fuel : nat) (self_data : list (option string * class_data))
    (c : option string) : list (option string) :=
  match fuel with
  | O => []
  | S fuel' =>
      match dict_get c self_data with
      | None => []
      | Some item => c :: (class_refs item ≫= visits fuel' self_data)
      end
  end.

(** All class references of the model. *)
Definition all_refs (self_data : list (option string * class_data))
  : list (option string) :=
  dict_values self_data ≫= class_refs.

(** The leaf tags of a tree: name and content of the nodes rendered as
    [<name>content</name>], from left to right. *)
Fixpoint leaf_tags (t : XMLComposite) : list (option string * string) :=
  match t with
  | mkXMLComposite n av ch =>
      match ch with
      | [] =>
          match av with
          | Some (String c v) => [(n, String c v)]
          | _ => []
          end
      | _ :: _ => ch ≫= leaf_tags
      end
  end.

(** The primitive attributes of a class record that have a non-empty type,
    as name and type. *)
Definition typed_attribute (p : param) : option (option string * string) :=
  if decide (is_class_param p) then None
  else match param_type p with
       | Some (String c v) => Some (param_name p, String c v)
       | _ => None
       end.
Definition typed_attributes (self_data : list (option string * class_data))
    (c : option string) : list (option string * string) :=
  match dict_get c self_data with
  | Some item => omap typed_attribute (parameters item)
  | None => []
  end.

(** The tree of class [c]: a node named [c] with one child per parameter of
    the class, in order; the child of a class-typed parameter is the tree of
    the class it names, the child of any other parameter is a leaf with the
    parameter's name and type. *)
Inductive tree_of (self_data : list (option string * class_data))
  : option string → XMLComposite → Prop :=
  | tree_of_class c item kids :
      dict_get c self_data = Some item →
      Forall2 (child_of self_data) (parameters item) kids →
      tree_of self_data c (mkXMLComposite c None kids)
with child_of (self_data : list (option string * class_data))
  : param → XMLComposite → Prop :=
  | child_of_class p kid :
      is_class_param p →
      tree_of self_data (param_name p) kid →
      child_of self_data p kid
  | child_of_attribute p :
      ¬ is_class_param p →
      child_of self_data p (mkXMLComposite (param_name p) (param_type p) []).

(** The indentation level of a line: its leading spaces, four per level. *)
Fixpoint leading_spaces (line : string) : nat :=
  match line with
  | String " " line' => S (leading_spaces line')
  | _ => 0%nat
  end.
Definition line_level (line : string) : nat := (leading_spaces line / 4)%nat.

(** The tag-nesting depth of a rendered text: the deepest level of its
    lines. *)
Definition nesting_depth (text : string) : nat :=
  max_list (line_level <$> split text nl).

Fixpoint strip_spaces (line : string) : string :=
  match line with
  | String " " line' => strip_spaces line'
  | _ => line
  end.

(** The number of lines of [text] that are the leaf tag [<n>t</n>]. *)
Definition leaf_tag_count (text n t : string) : nat :=
  length (filter (fun line => strip_spaces line
                              = "<" +:+ n +:+ ">" +:+ t +:+ "</" +:+ n +:+ ">")
                 (split text nl)).

(** No newline inside a name or a type, so that each rendered line is one
    line of the text. *)
Definition one_line (x : option string) : Prop := contains nl (fmt x) = false.
Definition one_line_class (item : class_data) : Prop :=
  one_line (class item)
  ∧ Forall (fun p => one_line (param_name p) ∧ one_line (param_type p))
           (parameters item).

#[global] Instance one_line_dec x : Decision (one_line x).
Proof. unfold one_line. apply _. Defined.
#[global] Instance one_line_class_dec item : Decision (one_line_class item).
Proof. unfold one_line_class. apply _. Defined.

(** Every class-typed parameter names a class of the mapping. *)
Definition references_closed (self_data : list (option string * class_data))
  : Prop :=
  Forall (fun kv =>
            Forall (fun p => is_class_param p →
                             is_Some (dict_get (param_name p) self_data))
                   (parameters kv.2))
         self_data.
#[global] Instance references_closed_dec d : Decision (references_closed d).
Proof. unfold references_closed. apply _. Defined.

(** [rank] numbers the classes so that every class reference goes to a
    class of smaller rank: there is such a numbering exactly when the class
    references have no cycle. *)
Definition ranked (self_data : list (option string * class_data))
    (rank : option string → nat) : Prop :=
  Forall (fun kv =>
            Forall (fun p => is_class_param p →
                             (rank (param_name p) < rank kv.1)%nat)
                   (parameters kv.2))
         self_data.
#[global] Instance ranked_dec d rank : Decision (ranked d rank).
Proof. unfold ranked. apply _. Defined.

(** *** Sample documents *)

(** [<Class name=... isRoot=...>] with [<Attribute name=... type=...>]
    children, and [<Aggregation source=... target=... sourceMultiplicity=...>]. *)
Definition class_elem (n is_root : string) (attrs : list (string * string))
  : Element :=
  mkElement "Class" [("name", n); ("isRoot", is_root)]
    ((fun a => mkElement "Attribute" [("name", a.1); ("type", a.2)] []) <$> attrs).
Definition aggregation_elem (src tgt mult : string) : Element :=
  mkElement "Aggregation"
    [("source", src); ("target", tgt); ("sourceMultiplicity", mult)] [].

(** A root class [Car] with the attribute [speed : int] and the aggregated
    class [Engine] without attributes. *)
Definition car_doc : Element :=
  mkElement "Model" []
    [class_elem "Car" "true" [("speed", "int")];
     class_elem "Engine" "false" [];
     aggregation_elem "Engine" "Car" "1"].

(** [Car] aggregates [Engine] and [Gearbox]; each of them aggregates
    [Bolt], which has the attribute [size : int]. *)
Definition diamond_doc : Element :=
  mkElement "Model" []
    [class_elem "Car" "true" [];
     class_elem "Engine" "false" [];
     class_elem "Gearbox" "false" [];
     class_elem "Bolt" "false" [("size", "int")];
     aggregation_elem "Engine" "Car" "1";
     aggregation_elem "Gearbox" "Car" "1";
     aggregation_elem "Bolt" "Engine" "1..*";
     aggregation_elem "Bolt" "Gearbox" "1..*"].

(** [Car] is the target of an aggregation whose source [Wheel] is not
    declared; [Loop] aggregates itself. *)
Definition dangling_doc : Element :=
  mkElement "Model" []
    [class_elem "Car" "true" [];
     aggregation_elem "Wheel" "Car" "4"].
Definition cycle_doc : Element :=
  mkElement "Model" []
    [class_elem "Loop" "true" [];
     aggregation_elem "Loop" "Loop" "1"].

Definition diamond_text : string :=
  "<Car>" +:+ nl +:+
  "    <Engine>" +:+ nl +:+
  "        <Bolt>" +:+ nl +:+
  "            <size>int</size>" +:+ nl +:+
  "        </Bolt>" +:+ nl +:+
  "    </Engine>" +:+ nl +:+
  "    <Gearbox>" +:+ nl +:+
  "        <Bolt>" +:+ nl +:+
  "            <size>int</size>" +:+ nl +:+
  "        </Bolt>" +:+ nl +:+
  "    </Gearbox>" +:+ nl +:+
  "</Car>".

(** Numberings of the classes of [car_doc] and of [diamond_doc]. *)
Definition car_rank (c : option string) : nat :=
  if decide (c = Some "Car") then 1%nat else 0%nat.
Definition diamond_rank (c : option string) : nat :=
  if decide (c = Some "Car") then 2%nat
  else if decide (c = Some "Bolt") then 0%nat else 1%nat.

(** The records [parse] returns for the two documents. *)
Definition car_json : list class_data :=
  (parse (XMLParser_init "input.xml") car_doc).2.
Definition diamond_json : list class_data :=
  (parse (XMLParser_init "input.xml") diamond_doc).2.

(** The parameters of a model that are not class references. *)
Definition primitive_attributes (json_data : list class_data) : list param :=
  filter (fun p => ¬ is_class_param p) (concat (parameters <$> json_data)).

(** Two classes flagged as root, and none. *)
Definition two_roots : list class_data :=
  [ClassData (Some "Car") "" true [Param (Some "speed") (Some "int")] None None;
   ClassData (Some "Boat") "" true [Param (Some "draft") (Some "float")] None None].
Definition no_root : list class_data :=
  [ClassData (Some "Car") "" false [Param (Some "speed") (Some "int")] None None].

End XmlData.

(* ===================================================================== *)
(** ** config_data.py: further sample documents *)
(* ===================================================================== *)

Module ConfigDataSamples.
Import Json ConfigData.

(** A document with the empty key. *)
Definition new_with_empty_key : gmap string value :=
  <["" := VInt 1]> (<["b" := VInt 3]> ∅).

(** A second order of iteration: the reverse of [elements_order]. *)
Definition reverse_order (X : gset string) : list string :=
  reverse (elements_order X).

(** A diff written by hand that lists [b] as updated and as deleted. *)
Definition diff_update_and_delete : diff_config :=
  {| additions := [Addition "c" (VInt 4)];
     deletions := ["a"; "b"];
     updates := [Update "b" (VInt 2) (VInt 3)] |}.

End ConfigDataSamples.

(* ===================================================================== *)
(** ** xml_data.py: the remaining operations *)
(* ===================================================================== *)

Module XmlDataMore.
Import XmlData.

(** [XMLComposite.add]: [self.children.append(component)]. *)
Definition add (self component : XMLComposite) : XMLComposite :=
  {| name := name self;
     attribute_value := attribute_value self;
     children := (children self ++ [component])%list |}.

(** The number of nodes of a tree. *)
Fixpoint tree_nodes (t : XMLComposite) : nat :=
  match t with
  | mkXMLComposite _ _ ch => S (foldr (fun kid n => tree_nodes kid + n)%nat 0%nat ch)
  end.

(** The declarations and the edges that [parse] reads from a document. *)
Definition declared_classes (doc : Element) : list class_data :=
  parse_class <$> findall doc "Class".
Definition declared_aggregations (doc : Element) : list aggregation :=
  parse_aggregation <$> findall doc "Aggregation".

(** No [Attribute] element of a declaration has the type ["class"]. *)
Definition attributes_primitive (decls : list class_data) : Prop :=
  Forall (fun decl => Forall (fun p => ¬ is_class_param p) (parameters decl))
         decls.
#[global] Instance attributes_primitive_dec decls :
  Decision (attributes_primitive decls).
Proof. unfold attributes_primitive. apply _. Defined.

(** Every aggregation into a declared class comes from a declared class of
    smaller rank. *)
Definition aggregations_ranked (decls : list class_data)
    (aggs : list aggregation) (rank : option string → nat) : Prop :=
  Forall (fun agg => target agg ∈ class <$> decls →
                     source agg ∈ class <$> decls
                     ∧ (rank (source agg) < rank (target agg))%nat)
         aggs.
#[global] Instance aggregations_ranked_dec decls aggs rank :
  Decision (aggregations_ranked decls aggs rank).
Proof. unfold aggregations_ranked. apply _. Defined.

(** A sample tree: the node [Car] with the leaf [speed]. *)
Definition car_node : XMLComposite := mkXMLComposite (Some "Car") None [].
Definition speed_leaf : XMLComposite :=
  mkXMLComposite (Some "speed") (Some "int") [].

(** Two declarations of the class [Car]. *)
Definition car_twice : list class_data :=
  [ClassData (Some "Car") "first" true [] None None;
   ClassData (Some "Boat") "" false [] None None;
   ClassData (Some "Car") "second" false [Param (Some "speed") (Some "int")]
     None None].

End XmlDataMore.

(* ===================================================================== *)
(** ** file.py *)
(* ===================================================================== *)

Module FileWorker.
Import XmlData.

(** [file_name.split(".")[-1]]; [split] returns at least one field. *)
Definition file_type (file_name : string) : string :=
  default "" (last (split file_name ".")).

(** [IOError] comes from [open], [JSONDecodeError] from [json.load],
    [TypeError] from [file.write] with content that is not a [str]. *)
Inductive error := IOError | JSONDecodeError | TypeError.

Inductive outcome (A : Type) :=
  | Return (a : A)
  | Raised (e : error).
Arguments Return {A} a.
Arguments Raised {A} e.

(** The lines that the two exception handlers print. *)
Inductive message :=
  | create_failed (file_name : string) (e : error)
  | read_failed (file_name : string) (e : error).

(** The files by name, each with its text, and the printed lines. *)
Record world := World {
  files : gmap string string;
  printed : list message
}.

Definition write (file_name text : string) (w : world) : world :=
  {| files := <[file_name := text]> (files w); printed := printed w |}.
Definition print (m : message) (w : world) : world :=
  {| files := files w; printed := (printed w ++ [m])%list |}.

Section Content.
(** The objects handed to [create_file] and returned by [read_file], with
    the operations that the two methods use: [as_str] gives the text of an
    object that is a [str]; [dumps] is the text that
    [json.dump(content, file, indent=4)] writes and [loads] the object that
    [json.load] reads, [None] when it raises [JSONDecodeError].
    [can_write] tells whether [open(file_name, "w")] succeeds; a file can
    be opened for reading when it exists.  Writing to an open file and
    reading from one do not fail. *)
Variable content : Type.
Variable as_str : content → option string.
Variable of_str : string → content.
Variable dumps : content → string.
Variable loads : string → option content.
Variable can_write : string → bool.

Definition create_file (file_name : string) (c : content) (w : world)
  : outcome unit * world :=
  if can_write file_name then
    (* the file is open and empty *)
    let w := write file_name "" w in
    if decide (file_type file_name = "json")
    then (Return (), write file_name (dumps c) w)
    else match as_str c with
         | Some text => (Return (), write file_name text w)
         | None => (Raised TypeError, w)
         end
  else
    (Raised IOError, print (create_failed file_name IOError) w).

Definition read_file (file_name : string) (w : world)
  : outcome content * world :=
  match files w !! file_name with
  | Some text =>
      if decide (file_type file_name = "json")
      then match loads text with
           | Some c => (Return c, w)
           | None =>
               (Raised JSONDecodeError,
                print (read_failed file_name JSONDecodeError) w)
           end
      else (Return (of_str text), w)
  | None => (Raised IOError, print (read_failed file_name IOError) w)
  end.

End Content.

(** Instances for examples: the JSON values, with a serialisation that
    knows [null] only. *)
Definition value_as_str (v : Json.value) : option string :=
  match v with
  | Json.VStr s => Some s
  | _ => None
  end.
Definition null_dumps (v : Json.value) : string := "null".
Definition null_loads (text : string) : option Json.value :=
  if decide (text = "null") then Some Json.VNone else None.
Definition all_writable (file_name : string) : bool := true.
Definition empty_world : world := World ∅ [].

End FileWorker.

(* ===================================================================== *)
(** ** Facts about Python's [==] on JSON values *)
(* ===================================================================== *)

Module JsonFacts.
Import Json.

Lemma vsize_elem (l : list value) v : v ∈ l → vsize v < vsize (VList l).
Proof.
  induction 1 as [x l|x y l _ IH]; simpl in *; lia.
Qed.

Lemma vsize_entry (l : list (string * value)) p :
  p ∈ l →
  vsize p.2 < S (foldr (uncurry (fun _ x acc => vsize x + acc)) 0 l).
Proof.
  induction 1 as [[k x] l|[k x] [k' y] l _ IH]; simpl in *; lia.
Qed.

Lemma vsize_lookup (d : gmap string value) k v :
  d !! k = Some v → vsize v < vsize (VDict d).
Proof.
  intros Hk. simpl. rewrite map_fold_foldr.
  apply elem_of_map_to_list in Hk. apply (vsize_entry _ (k, v) Hk).
Qed.

(** A conjunction folded over the entries of a dictionary holds when it
    holds of every entry. *)
Lemma fold_and_true (db : gmap string value) (P : value → value → bool)
    (l : list (string * value)) :
  (∀ k v, (k, v) ∈ l → ∃ w, db !! k = Some w ∧ P v w = true) →
  foldr (uncurry (fun k v acc =>
           acc && match db !! k with Some w => P v w | None => false end))
        true l = true.
Proof.
  induction l as [|[k v] l IH]; intros Hall; [done|].
  simpl. rewrite IH by (intros; apply Hall; by right).
  destruct (Hall k v) as (w & -> & ->); [by left|done].
Qed.

(** [==] is reflexive on the values modelled here (it is not on floats:
    [nan != nan]). *)
Lemma py_eq_refl v : py_eq v v = true.
Proof.
  remember (vsize v) as n eqn:Hn. revert v Hn.
  induction n as [n IH] using lt_wf_ind. intros v ->.
  destruct v as [|b|z|s|l|d]; simpl.
  - done.
  - apply Z.eqb_refl.
  - apply Z.eqb_refl.
  - apply String.eqb_refl.
  - assert (Hl : ∀ x, x ∈ l → py_eq x x = true).
    { intros x Hx. eapply IH; [apply vsize_elem, Hx|done]. }
    clear IH. induction l as [|x l IHl]; [done|].
    rewrite Hl by left. simpl. apply IHl. intros; apply Hl; by right.
  - rewrite Nat.eqb_refl. simpl. rewrite map_fold_foldr.
    apply (fold_and_true d py_eq). intros k v Hkv.
    apply elem_of_map_to_list in Hkv. exists v; split; [done|].
    eapply IH; [eapply vsize_lookup|]; done.
Qed.

(** Two dictionaries with the same keys and pairwise equal values are
    equal. *)
Lemma py_eq_dict (da db : gmap string value) :
  (∀ k, match da !! k, db !! k with
        | Some v, Some w => py_eq v w = true
        | None, None => True
        | _, _ => False
        end) →
  py_eq (VDict da) (VDict db) = true.
Proof.
  intros Hall. simpl. apply andb_true_iff. split.
  - apply Nat.eqb_eq. rewrite <- !size_dom. f_equal.
    apply set_eq. intros k. rewrite !elem_of_dom.
    specialize (Hall k).
    destruct (da !! k), (db !! k); try done; split; intros [? ?]; done.
  - rewrite map_fold_foldr. apply (fold_and_true db py_eq).
    intros k v Hk%elem_of_map_to_list. specialize (Hall k).
    rewrite Hk in Hall. destruct (db !! k) as [w|]; [eauto|done].
Qed.

End JsonFacts.

(* ===================================================================== *)
(** ** config_data.py: the diff and its application *)
(* ===================================================================== *)

Module ConfigDataProps.
Import Json JsonFacts ConfigData.

Lemma truthy_false k : truthy k = false ↔ k = "".
Proof. destruct k; simpl; split; congruence. Qed.

Lemma getitem_Some (d : gmap string value) k v :
  d !! k = Some v → getitem d k = v.
Proof. unfold getitem. by intros ->. Qed.

Lemma lookup_getitem (d : gmap string value) k :
  k ∈ dom d → d !! k = Some (getitem d k).
Proof. intros [v Hv]%elem_of_dom. by rewrite (getitem_Some _ _ _ Hv). Qed.

(** *** The two write loops of [do_config_changes] *)

Lemma foldl_apply_addition_lookup (l : list addition) (m : gmap string value) k :
  foldl apply_addition m l !! k =
    if truthy k then
      match last_addition k l with Some v => Some v | None => m !! k end
    else m !! k.
Proof.
  unfold last_addition.
  induction l as [|a l IH] using rev_ind; simpl.
  { by destruct (truthy k). }
  rewrite foldl_app, filter_app. simpl. unfold apply_addition at 1.
  destruct (decide (add_key a = k)) as [Heq|Hne].
  - rewrite filter_cons_True by done. rewrite filter_nil, last_snoc. simpl.
    rewrite Heq. destruct (truthy k) eqn:Hk; [by rewrite lookup_insert_eq|].
    apply IH.
  - rewrite filter_cons_False by done. rewrite filter_nil, app_nil_r.
    destruct (truthy (add_key a)); [rewrite lookup_insert_ne by done|]; apply IH.
Qed.

Lemma foldl_apply_update_lookup (l : list update) (m : gmap string value) k :
  foldl apply_update m l !! k =
    if truthy k then
      match last_update k l with Some v => Some v | None => m !! k end
    else m !! k.
Proof.
  unfold last_update.
  induction l as [|u l IH] using rev_ind; simpl.
  { by destruct (truthy k). }
  rewrite foldl_app, filter_app. simpl. unfold apply_update at 1.
  destruct (decide (upd_key u = k)) as [Heq|Hne].
  - rewrite filter_cons_True by done. rewrite filter_nil, last_snoc. simpl.
    rewrite Heq. destruct (truthy k) eqn:Hk; [by rewrite lookup_insert_eq|].
    apply IH.
  - rewrite filter_cons_False by done. rewrite filter_nil, app_nil_r.
    destruct (truthy (upd_key u)); [rewrite lookup_insert_ne by done|]; apply IH.
Qed.

(** The third loop copies [old_config[param]] for each listed key. *)
Lemma foldl_copy_lookup (old_config : gmap string value) (l : list string)
    (m : gmap string value) k :
  foldl (fun acc param => <[param := getitem old_config param]> acc) m l !! k =
    if decide (k ∈ l) then Some (getitem old_config k) else m !! k.
Proof.
  induction l as [|p l IH] using rev_ind.
  { done. }
  rewrite foldl_app. cbn [foldl].
  destruct (decide (p = k)) as [->|Hne].
  - rewrite lookup_insert_eq. rewrite decide_True; [done|set_solver].
  - rewrite lookup_insert_ne by done. rewrite IH.
    destruct (decide (k ∈ l)) as [Hin|Hnin].
    + rewrite decide_True; [done|]. apply elem_of_app. by left.
    + rewrite decide_False; [done|].
      rewrite elem_of_app, list_elem_of_singleton. intros [?|?]; congruence.
Qed.

(** *** Entries computed from a list of keys *)

Lemma last_addition_fmap (g : string → value) (l : list string) k :
  last_addition k ((fun key => Addition key (g key)) <$> l) =
    if decide (k ∈ l) then Some (g k) else None.
Proof.
  unfold last_addition.
  induction l as [|x l IH] using rev_ind; [done|].
  rewrite fmap_app, filter_app. simpl.
  destruct (decide (x = k)) as [->|Hne].
  - rewrite filter_cons_True by done. rewrite filter_nil, last_snoc. simpl.
    rewrite decide_True; [done|]. apply elem_of_app. right. by left.
  - rewrite filter_cons_False by done. rewrite filter_nil, app_nil_r, IH.
    destruct (decide (k ∈ l)) as [Hin|Hnin].
    + rewrite decide_True; [done|]. apply elem_of_app. by left.
    + rewrite decide_False; [done|].
      rewrite elem_of_app, list_elem_of_singleton. intros [?|?]; congruence.
Qed.

Lemma last_update_fmap (f g : string → value) (l : list string) k :
  last_update k ((fun key => Update key (f key) (g key)) <$> l) =
    if decide (k ∈ l) then Some (g k) else None.
Proof.
  unfold last_update.
  induction l as [|x l IH] using rev_ind; [done|].
  rewrite fmap_app, filter_app. simpl.
  destruct (decide (x = k)) as [->|Hne].
  - rewrite filter_cons_True by done. rewrite filter_nil, last_snoc. simpl.
    rewrite decide_True; [done|]. apply elem_of_app. right. by left.
  - rewrite filter_cons_False by done. rewrite filter_nil, app_nil_r, IH.
    destruct (decide (k ∈ l)) as [Hin|Hnin].
    + rewrite decide_True; [done|]. apply elem_of_app. by left.
    + rewrite decide_False; [done|].
      rewrite elem_of_app, list_elem_of_singleton. intros [?|?]; congruence.
Qed.

(** Entries with a falsy key never decide what is stored under a truthy
    key. *)
Lemma last_addition_truthy (l : list addition) k :
  truthy k = true →
  last_addition k (filter (fun a => truthy (add_key a) = true) l)
  = last_addition k l.
Proof.
  intros Hk. unfold last_addition. rewrite list_filter_filter.
  do 2 f_equal. apply list_filter_iff. intros a. split; [tauto|].
  intros Ha. split; [done|by rewrite Ha].
Qed.

Lemma last_update_truthy (l : list update) k :
  truthy k = true →
  last_update k (filter (fun u => truthy (upd_key u) = true) l)
  = last_update k l.
Proof.
  intros Hk. unfold last_update. rewrite list_filter_filter.
  do 2 f_equal. apply list_filter_iff. intros u. split; [tauto|].
  intros Hu. split; [done|by rewrite Hu].
Qed.

Section SetOrder.
Variable set_iter : gset string → list string.
(** Iterating a set visits each of its elements once, in some order. *)
Hypothesis set_iter_perm : ∀ X, set_iter X ≡ₚ elements X.

Lemma elem_of_set_iter X k : k ∈ set_iter X ↔ k ∈ X.
Proof. rewrite set_iter_perm. apply elem_of_elements. Qed.

Lemma NoDup_set_iter X : NoDup (set_iter X).
Proof. rewrite set_iter_perm. apply NoDup_elements. Qed.

Lemma set_iter_singleton k : set_iter {[ k ]} = [k].
Proof.
  apply Permutation_singleton_r. by rewrite set_iter_perm, elements_singleton.
Qed.

(** What [do_config_changes] leaves under each key. *)
Lemma do_config_changes_lookup old_config diff k :
  do_config_changes set_iter old_config diff !! k =
    if truthy k then
      match last_update k (updates diff), last_addition k (additions diff) with
      | Some w, _ => Some w
      | None, Some v => Some v
      | None, None =>
          if decide (k ∈ deletions diff) then None else old_config !! k
      end
    else if decide (k ∈ deletions diff) then None else old_config !! k.
Proof.
  unfold do_config_changes. rewrite foldl_copy_lookup.
  set (m1 := foldl apply_addition ∅ (additions diff)).
  set (m2 := foldl apply_update m1 (updates diff)).
  assert (Hm2 : m2 !! k =
    if truthy k then
      match last_update k (updates diff), last_addition k (additions diff) with
      | Some w, _ => Some w
      | None, Some v => Some v
      | None, None => None
      end
    else None).
  { unfold m2, m1.
    rewrite foldl_apply_update_lookup, foldl_apply_addition_lookup.
    rewrite lookup_empty.
    destruct (truthy k); [|done].
    by destruct (last_update k (updates diff)), (last_addition k (additions diff)). }
  assert (Hin : k ∈ set_iter (unchanged_params old_config m2 (deletions diff))
                ↔ k ∈ dom old_config ∧ m2 !! k = None ∧ k ∉ deletions diff).
  { rewrite elem_of_set_iter. unfold unchanged_params.
    rewrite !elem_of_difference, elem_of_list_to_set, not_elem_of_dom.
    tauto. }
  destruct (decide (k ∈ set_iter _)) as [Hk|Hk].
  - apply Hin in Hk as (Hold & Hnone & Hdel).
    rewrite <- (lookup_getitem _ _ Hold).
    rewrite Hm2 in Hnone. rewrite decide_False by done.
    destruct (truthy k); [|done].
    by destruct (last_update k (updates diff)), (last_addition k (additions diff)).
  - rewrite Hm2. rewrite Hm2 in Hin.
    destruct (truthy k);
      [destruct (last_update k (updates diff)), (last_addition k (additions diff)); try done|].
    all: destruct (decide (k ∈ deletions diff)); [done|].
    all: destruct (old_config !! k) eqn:Hold; [|done].
    all: exfalso; apply Hk, Hin; split_and!; [|done..].
    all: apply elem_of_dom; eauto.
Qed.

Lemma additions_keys_list old_config new_config :
  add_key <$> additions (find_differences set_iter old_config new_config)
  = set_iter (dom new_config ∖ dom old_config).
Proof.
  simpl. rewrite <- list_fmap_compose. apply list_fmap_id.
Qed.

Lemma updates_keys_list old_config new_config :
  upd_key <$> updates (find_differences set_iter old_config new_config)
  = filter
      (fun k => py_ne (getitem old_config k) (getitem new_config k) = true)
      (set_iter (dom old_config ∩ dom new_config)).
Proof.
  simpl. rewrite <- list_fmap_compose. apply list_fmap_id.
Qed.

Lemma elem_of_additions old_config new_config a :
  a ∈ additions (find_differences set_iter old_config new_config) ↔
  ∃ k v, new_config !! k = Some v ∧ old_config !! k = None
         ∧ a = Addition k v.
Proof.
  simpl. rewrite list_elem_of_fmap. split.
  - intros (k & -> & Hk). apply elem_of_set_iter in Hk.
    apply elem_of_difference in Hk as [[v Hv]%elem_of_dom Hold%not_elem_of_dom].
    exists k, v. by rewrite (getitem_Some _ _ _ Hv).
  - intros (k & v & Hnew & Hold & ->). exists k.
    rewrite (getitem_Some _ _ _ Hnew). split; [done|].
    apply elem_of_set_iter, elem_of_difference.
    split; [apply elem_of_dom; eauto|by apply not_elem_of_dom].
Qed.

Lemma elem_of_deletions old_config new_config k :
  k ∈ deletions (find_differences set_iter old_config new_config) ↔
  is_Some (old_config !! k) ∧ new_config !! k = None.
Proof.
  simpl. rewrite elem_of_set_iter, elem_of_difference.
  by rewrite elem_of_dom, not_elem_of_dom.
Qed.

Lemma elem_of_updates old_config new_config u :
  u ∈ updates (find_differences set_iter old_config new_config) ↔
  ∃ k v w, old_config !! k = Some v ∧ new_config !! k = Some w
           ∧ py_eq v w = false ∧ u = Update k v w.
Proof.
  simpl. rewrite list_elem_of_fmap. split.
  - intros (k & -> & Hk). apply list_elem_of_filter in Hk as [Hne Hk].
    apply elem_of_set_iter, elem_of_intersection in Hk
      as [[v Hv]%elem_of_dom [w Hw]%elem_of_dom].
    exists k, v, w. rewrite (getitem_Some _ _ _ Hv), (getitem_Some _ _ _ Hw) in *.
    split_and!; try done. by apply negb_true_iff.
  - intros (k & v & w & Hold & Hnew & Hne & ->). exists k.
    rewrite (getitem_Some _ _ _ Hold), (getitem_Some _ _ _ Hnew).
    split; [done|]. apply list_elem_of_filter. split.
    + rewrite (getitem_Some _ _ _ Hold), (getitem_Some _ _ _ Hnew).
      by apply negb_true_iff.
    + apply elem_of_set_iter, elem_of_intersection.
      split; apply elem_of_dom; eauto.
Qed.



Lemma elem_of_addition_keys old_config new_config k :
  k ∈ addition_keys (find_differences set_iter old_config new_config)
  ↔ k ∈ dom new_config ∧ k ∉ dom old_config.
Proof.
  unfold addition_keys. rewrite additions_keys_list, elem_of_list_to_set.
  by rewrite elem_of_set_iter, elem_of_difference.
Qed.

Lemma elem_of_deletion_keys old_config new_config k :
  k ∈ deletion_keys (find_differences set_iter old_config new_config)
  ↔ k ∈ dom old_config ∧ k ∉ dom new_config.
Proof.
  unfold deletion_keys. simpl. rewrite elem_of_list_to_set.
  by rewrite elem_of_set_iter, elem_of_difference.
Qed.

Lemma elem_of_update_keys old_config new_config k :
  k ∈ update_keys (find_differences set_iter old_config new_config)
  ↔ (k ∈ dom old_config ∧ k ∈ dom new_config)
    ∧ py_eq (getitem old_config k) (getitem new_config k) = false.
Proof.
  unfold update_keys. rewrite updates_keys_list, elem_of_list_to_set.
  rewrite list_elem_of_filter, elem_of_set_iter, elem_of_intersection.
  unfold py_ne. rewrite negb_true_iff. tauto.
Qed.

Lemma elem_of_equal_keys old_config new_config k :
  k ∈ equal_keys old_config new_config
  ↔ (k ∈ dom old_config ∧ k ∈ dom new_config)
    ∧ py_eq (getitem old_config k) (getitem new_config k) = true.
Proof.
  unfold equal_keys. rewrite elem_of_filter, elem_of_intersection. tauto.
Qed.


(** What applying the computed diff leaves under each key. *)
Lemma apply_diff_lookup old_config new_config k :
  truthy k = true →
  do_config_changes set_iter old_config
    (find_differences set_iter old_config new_config) !! k =
    match old_config !! k, new_config !! k with
    | Some v, Some w => if py_eq v w then Some v else Some w
    | None, Some w => Some w
    | _, None => None
    end.
Proof.
  intros Hk. rewrite do_config_changes_lookup, Hk.
  cbn [updates additions deletions find_differences].
  rewrite last_update_fmap, last_addition_fmap.
  destruct (old_config !! k) as [v|] eqn:Hold;
    destruct (new_config !! k) as [w|] eqn:Hnew.
  - assert (Hin : k ∈ dom old_config ∩ dom new_config).
    { apply elem_of_intersection; split; apply elem_of_dom; eauto. }
    destruct (py_eq v w) eqn:Heq.
    + rewrite !decide_False; [done|..].
      * rewrite elem_of_set_iter, elem_of_difference, !elem_of_dom.
        intros [_ []]; eauto.
      * rewrite elem_of_set_iter, elem_of_difference, !elem_of_dom.
        intros [_ []]; eauto.
      * rewrite list_elem_of_filter. unfold py_ne.
        rewrite (getitem_Some _ _ _ Hold), (getitem_Some _ _ _ Hnew), Heq.
        by intros [? _].
    + rewrite decide_True; [by rewrite (getitem_Some _ _ _ Hnew)|].
      rewrite list_elem_of_filter, elem_of_set_iter. split; [|done].
      unfold py_ne.
      by rewrite (getitem_Some _ _ _ Hold), (getitem_Some _ _ _ Hnew), Heq.
  - rewrite decide_False.
    2:{ rewrite list_elem_of_filter, elem_of_set_iter, elem_of_intersection.
        rewrite !elem_of_dom, Hnew. by intros [_ [_ [? ?]]]. }
    rewrite decide_False.
    2:{ rewrite elem_of_set_iter, elem_of_difference, !elem_of_dom, Hnew.
        by intros [[? ?] _]. }
    rewrite decide_True; [done|].
    rewrite elem_of_set_iter, elem_of_difference, !elem_of_dom, Hold, Hnew.
    split; [eauto|by intros [? ?]].
  - rewrite decide_False.
    2:{ rewrite list_elem_of_filter, elem_of_set_iter, elem_of_intersection.
        rewrite !elem_of_dom, Hold. by intros [_ [[? ?] _]]. }
    rewrite decide_True; [by rewrite (getitem_Some _ _ _ Hnew)|].
    rewrite elem_of_set_iter, elem_of_difference, !elem_of_dom, Hold, Hnew.
    split; [eauto|by intros [? ?]].
  - rewrite decide_False.
    2:{ rewrite list_elem_of_filter, elem_of_set_iter, elem_of_intersection.
        rewrite !elem_of_dom, Hold. by intros [_ [[? ?] _]]. }
    rewrite decide_False.
    2:{ rewrite elem_of_set_iter, elem_of_difference, !elem_of_dom, Hnew.
        by intros [[? ?] _]. }
    rewrite decide_False; [done|].
    rewrite elem_of_set_iter, elem_of_difference, !elem_of_dom, Hold.
    by intros [[? ?] _].
Qed.

End SetOrder.

(** *** The theorems at the sample documents *)

Lemma elements_order_perm X : elements_order X ≡ₚ elements X.
Proof. reflexivity. Qed.

Lemma old_ab_keys k : k ∈ dom old_ab → k ≠ "".
Proof.
  unfold old_ab. rewrite !dom_insert_L, dom_empty_L.
  rewrite !elem_of_union, !elem_of_singleton, elem_of_empty.
  intros [->|[->|[]]]; done.
Qed.

Lemma new_bc_keys k : k ∈ dom new_bc → k ≠ "".
Proof.
  unfold new_bc. rewrite !dom_insert_L, dom_empty_L.
  rewrite !elem_of_union, !elem_of_singleton, elem_of_empty.
  intros [->|[->|[]]]; done.
Qed.


(** [True == 1] in Python: a value changed from [1] to [true] is not
    listed as an update, and the patched document keeps the [1]. *)
Lemma bool_int_not_an_update :
  find_differences elements_order
    (<["a" := VInt 1]> ∅) (<["a" := VBool true]> ∅)
  = {| additions := []; deletions := []; updates := [] |}
  ∧ do_config_changes elements_order (<["a" := VInt 1]> ∅)
      {| additions := []; deletions := []; updates := [] |}
    = <["a" := VInt 1]> ∅.
Proof. split; vm_compute; reflexivity. Qed.




End ConfigDataProps.

(* ===================================================================== *)
(** ** xml_data.py: root lookup *)
(* ===================================================================== *)

Module XmlDataProps.
Import XmlData.

(** *** Insertion-ordered dictionaries *)

Section odict.
Context {K V : Type} `{EqDecision K}.
Implicit Types (d : list (K * V)) (k : K) (v : V).

Lemma dict_keys_set d k v :
  dict_keys (dict_set k v d) =
    if decide (k ∈ dict_keys d) then dict_keys d else (dict_keys d ++ [k])%list.
Proof.
  unfold dict_keys. induction d as [|[k0 v0] d IH]; [done|].
  cbn [dict_set]. destruct (decide (k = k0)) as [->|Hne].
  - rewrite !fmap_cons. cbn [fst]. rewrite decide_True; [done|by left].
  - rewrite !fmap_cons, IH. cbn [fst].
    destruct (decide (k ∈ d.*1)) as [Hin|Hnin].
    + rewrite decide_True; [done|by right].
    + rewrite decide_False; [done|].
      rewrite elem_of_cons. intros [?|?]; done.
Qed.

Lemma dict_keys_alter (f : V → V) d k :
  dict_keys (dict_alter f k d) = dict_keys d.
Proof.
  unfold dict_keys. induction d as [|[k0 v0] d IH]; [done|].
  cbn [dict_alter]. destruct (decide (k = k0)); rewrite !fmap_cons; [done|].
  by rewrite IH.
Qed.

End odict.

(** *** [_find_root] *)

Lemma find_root_loop_None items :
  find_root_loop items = None ↔ Forall (fun c => isRoot c = false) items.
Proof.
  induction items as [|c items IH]; simpl; [by split|].
  rewrite Forall_cons. destruct (isRoot c); [|tauto].
  split; [done|]. by intros [? _].
Qed.

(** The loop returns the first flagged record. *)
Lemma find_root_loop_Some items r :
  find_root_loop items = Some r ↔
  ∃ before after, items = (before ++ r :: after)%list
                  ∧ Forall (fun c => isRoot c = false) before
                  ∧ isRoot r = true.
Proof.
  induction items as [|c items IH]; simpl.
  - split; [done|]. intros (before & after & Heq & _). by destruct before.
  - destruct (isRoot c) eqn:Hc.
    + split.
      * intros [= ->]. by exists [], items.
      * intros ([|c' before] & after & Heq & Hall & Hr); simplify_eq/=; [done|].
        apply Forall_cons in Hall as [? _]. congruence.
    + rewrite IH. split.
      * intros (before & after & -> & Hall & Hr).
        exists (c :: before), after. split_and!; [done| |done].
        by apply Forall_cons.
      * intros ([|c' before] & after & Heq & Hall & Hr); simplify_eq/=.
        { congruence. }
        apply Forall_cons in Hall as [_ ?]. eauto.
  Qed.

(** *** The mapping built by [XMLBuilder.__init__] *)

Lemma dict_set_fresh {K V} `{EqDecision K} (d : list (K * V)) k v :
  k ∉ dict_keys d → dict_set k v d = (d ++ [(k, v)])%list.
Proof.
  unfold dict_keys. induction d as [|[k0 v0] d IH]; [done|].
  rewrite fmap_cons, not_elem_of_cons. cbn [fst dict_set]. intros [Hne Hnin].
  rewrite decide_False by done. by rewrite IH.
Qed.

Lemma foldl_dict_set_distinct (l : list class_data)
    (d : list (option string * class_data)) :
  NoDup (class <$> l) →
  (∀ c, c ∈ l → class c ∉ dict_keys d) →
  foldl (fun d item => dict_set (class item) item d) d l
  = (d ++ ((fun c => (class c, c)) <$> l))%list.
Proof.
  revert d. induction l as [|c l IH]; intros d Hnd Hfresh; simpl.
  { by rewrite app_nil_r. }
  rewrite fmap_cons in Hnd. apply NoDup_cons in Hnd as [Hc Hnd].
  rewrite dict_set_fresh by (apply Hfresh; by left).
  rewrite IH; [by rewrite <- app_assoc|done|].
  intros c' Hc'. unfold dict_keys. rewrite fmap_app, elem_of_app. simpl.
  intros [Hin|Hin%list_elem_of_singleton].
  - apply (Hfresh c'); [by right|done].
  - apply Hc. rewrite <- Hin. apply list_elem_of_fmap. eauto.
Qed.

(** With distinct class names the mapping lists the records as given. *)
Lemma data_of_distinct json_data :
  NoDup (class <$> json_data) →
  dict_values (data_of json_data) = json_data.
Proof.
  intros Hnd. unfold data_of, dict_values.
  rewrite foldl_dict_set_distinct; [|done|].
  - simpl. rewrite <- list_fmap_compose. apply list_fmap_id.
  - intros c _. apply not_elem_of_nil.
Qed.

Lemma dict_values_set_subseteq {K V} `{EqDecision K} (d : list (K * V)) k v x :
  x ∈ dict_values (dict_set k v d) → x = v ∨ x ∈ dict_values d.
Proof.
  unfold dict_values. induction d as [|[k0 v0] d IH]; cbn [dict_set].
  - rewrite list_fmap_singleton, list_elem_of_singleton. by left.
  - destruct (decide (k = k0)); rewrite !fmap_cons, !elem_of_cons; cbn [snd].
    + tauto.
    + intros [?|?%IH]; tauto.
Qed.

(** The records of the mapping are records of the list. *)
Lemma data_of_values json_data c :
  c ∈ dict_values (data_of json_data) → c ∈ json_data.
Proof.
  unfold data_of.
  assert (Hgen : ∀ d,
    c ∈ dict_values (foldl (fun d item => dict_set (class item) item d) d json_data)
    → c ∈ dict_values d ∨ c ∈ json_data).
  { induction json_data as [|x l IH]; intros d; simpl; [by left|].
    intros [[->|?]%dict_values_set_subseteq|?]%IH.
    - right. by left.
    - by left.
    - right. by right. }
  intros [Hc|Hc]%Hgen; [|done]. by apply elem_of_nil in Hc.
Qed.




(* ===================================================================== *)
(** ** xml_data.py: rendering *)
(* ===================================================================== *)

(** *** Strings *)

Lemma append_nil_l s : "" +:+ s = s.
Proof. reflexivity. Qed.

Lemma append_cons c s t : String c s +:+ t = String c (s +:+ t).
Proof. reflexivity. Qed.

Lemma append_nil_r s : s +:+ "" = s.
Proof. induction s as [|c s IH]; [done|]. by rewrite append_cons, IH. Qed.

Lemma append_assoc s t u : (s +:+ t) +:+ u = s +:+ t +:+ u.
Proof. induction s as [|c s IH]; [done|]. by rewrite !append_cons, IH. Qed.

Lemma str_repeat_snoc s n : str_repeat s (S n) = str_repeat s n +:+ s.
Proof.
  induction n as [|n IH]; simpl.
  - by rewrite append_nil_r.
  - rewrite append_assoc. f_equal. apply IH.
Qed.

Lemma str_repeat_spaces n : str_repeat "    " n = spaces (4 * n).
Proof.
  unfold spaces. induction n as [|n IH]; [done|].
  replace (4 * S n)%nat with (S (S (S (S (4 * n))))) by lia.
  simpl. by rewrite IH.
Qed.

(** The indentation of a level is a prefix of the one of the next level. *)
Lemma indent_str_succ indent :
  ∃ more, indent_str (indent + 1) = indent_str indent +:+ more.
Proof.
  unfold indent_str. destruct (Z.to_nat indent) as [|n] eqn:Hn.
  - eexists. reflexivity.
  - replace (Z.to_nat (indent + 1)) with (S (S n)) by lia.
    exists "    ". apply str_repeat_snoc.
Qed.

(** *** [sep.join] *)

Lemma join_cons_cons sep x y l :
  join sep (x :: y :: l) = x +:+ sep +:+ join sep (y :: l).
Proof. reflexivity. Qed.

Lemma join_app_head sep (x r : list string) :
  x ≠ [] → join sep (x ++ r) = join sep (join sep x :: r).
Proof.
  induction x as [|a x IH]; [done|]. intros _.
  destruct x as [|b x]; [done|].
  change ((a :: b :: x) ++ r)%list with (a :: b :: (x ++ r))%list.
  rewrite join_cons_cons.
  change (b :: (x ++ r))%list with ((b :: x) ++ r)%list.
  rewrite IH by done. rewrite (join_cons_cons sep a b x).
  destruct r as [|r0 r]; [done|].
  rewrite !join_cons_cons. by rewrite !append_assoc.
Qed.

Lemma join_cons_eq sep a (M1 M2 : list string) :
  (M1 = [] ↔ M2 = []) → join sep M1 = join sep M2 →
  join sep (a :: M1) = join sep (a :: M2).
Proof.
  intros Hnil Heq. destruct M1 as [|x M1], M2 as [|y M2]; [done| | |].
  - by destruct Hnil as [Hnil _]; specialize (Hnil eq_refl).
  - by destruct Hnil as [_ Hnil]; specialize (Hnil eq_refl).
  - by rewrite !join_cons_cons, Heq.
Qed.

Lemma join_concat sep (L : list (list string)) (rest : list string) :
  Forall (fun x => x ≠ []) L →
  join sep (map (join sep) L ++ rest) = join sep (concat L ++ rest).
Proof.
  induction 1 as [|x L Hx HL IH]; [done|].
  cbn [map concat]. rewrite <- app_assoc.
  rewrite (join_app_head sep x) by done.
  change (join sep x :: map (join sep) L ++ rest)%list
    with (join sep x :: (map (join sep) L ++ rest))%list.
  apply join_cons_eq; [|done].
  destruct L as [|y L]; [done|].
  apply Forall_cons in HL as [Hy _]. destruct y; [done|].
  split; discriminate.
Qed.

(** *** Induction over trees *)

Lemma XMLComposite_tree_ind (P : XMLComposite → Prop) :
  (∀ n av ch, Forall P ch → P (mkXMLComposite n av ch)) →
  ∀ t, P t.
Proof.
  intros Hnode. fix IH 1. intros [n av ch]. apply Hnode.
  induction ch as [|c ch IHch]; constructor; [apply IH|apply IHch].
Qed.

Lemma to_xml_lines_nonempty t indent : to_xml_lines t indent ≠ [].
Proof. destruct t as [n [[|c v]|] [|k ks]]; done. Qed.

Lemma to_xml_join_lines t : ∀ indent,
  to_xml t indent = join nl (to_xml_lines t indent).
Proof.
  induction t as [n av ch IH] using XMLComposite_tree_ind. intros indent.
  destruct ch as [|k ks].
  - destruct av as [[|c v]|]; cbn [to_xml to_xml_lines];
      rewrite ?join_cons_cons; unfold join; cbn [String.concat];
      by rewrite ?append_assoc.
  - cbn [to_xml to_xml_lines].
    assert (Hmap : map (fun child => to_xml child (indent + 1)) (k :: ks)
                   = map (join nl)
                       (map (fun child => to_xml_lines child (indent + 1))
                            (k :: ks))).
    { rewrite map_map. apply map_ext_Forall.
      eapply Forall_impl; [exact IH|]. intros child Hc. apply Hc. }
    rewrite Hmap.
    change ([?a] ++ ?b ++ ?c)%list with (a :: (b ++ c))%list.
    apply join_cons_eq.
    + split; intros Hnil; apply app_eq_nil in Hnil as [_ ?]; done.
    + apply join_concat. apply Forall_map, Forall_forall.
      intros child _. apply to_xml_lines_nonempty.
Qed.

Lemma to_xml_lines_prefixed t : ∀ indent,
  Forall (fun line => ∃ rest, line = indent_str indent +:+ rest)
         (to_xml_lines t indent).
Proof.
  induction t as [n av ch IH] using XMLComposite_tree_ind. intros indent.
  destruct ch as [|k ks].
  - destruct av as [[|c v]|]; cbn [to_xml_lines]; repeat constructor; eauto.
  - cbn [to_xml_lines]. apply Forall_app. split; [repeat constructor; eauto|].
    apply Forall_app. split; [|repeat constructor; eauto].
    apply Forall_concat, Forall_map.
    eapply Forall_impl; [exact IH|]. intros child Hc. simpl.
    eapply Forall_impl; [apply (Hc (indent + 1)%Z)|].
    intros line [rest ->]. destruct (indent_str_succ indent) as [more ->].
    exists (more +:+ rest). apply append_assoc.
Qed.


(** The model of the specification: [Car] with [speed : int] and the
    aggregated class [Engine]. *)
Lemma render_car_doc :
  render_model 5 car_doc =
    Ok ("<Car>" +:+ nl +:+
        "    <speed>int</speed>" +:+ nl +:+
        "    <Engine>" +:+ nl +:+
        "    </Engine>" +:+ nl +:+
        "</Car>").
Proof. reflexivity. Qed.

(* ===================================================================== *)
(** ** xml_data.py: the multiplicity of an aggregation *)
(* ===================================================================== *)

Lemma prefix_nil s : String.prefix "" s = true.
Proof. by destruct s. Qed.

(** Whether a dot follows does not depend on what comes after it. *)
Lemma prefix_dot_app a r1 r2 :
  String.prefix "." (a +:+ String "." r1)
  = String.prefix "." (a +:+ String "." r2).
Proof.
  destruct a as [|c a]; [rewrite !append_nil_l|rewrite !append_cons]; simpl.
  - by rewrite !prefix_nil.
  - destruct (ascii_dec "." c); by rewrite ?prefix_nil.
Qed.

Lemma prefix_sep_cons c x :
  String.prefix ".." (String c x)
  = (if ascii_dec "." c then String.prefix "." x else false).
Proof. reflexivity. Qed.

Lemma contains_cons sub c s :
  contains sub (String c s) = String.prefix sub (String c s) || contains sub s.
Proof. reflexivity. Qed.

Lemma contains_sep_app a b : contains ".." (a +:+ ".." +:+ b) = true.
Proof.
  induction a as [|c a IH].
  - rewrite append_nil_l. change (".." +:+ b) with (String "." (String "." b)).
    rewrite contains_cons. simpl. by rewrite prefix_nil.
  - rewrite append_cons, contains_cons, IH. apply orb_true_r.
Qed.

(** Without a separator there is one field, the whole string. *)
Lemma split_no_sep b : contains ".." b = false → split b ".." = [b].
Proof.
  unfold split. induction b as [|c b IH]; [done|].
  rewrite contains_cons. intros [Hp Hc]%orb_false_iff.
  cbn [split_from]. rewrite Hp, (IH Hc). done.
Qed.

(** The first field ends where the separator first starts. *)
Lemma split_first_sep a b :
  contains ".." (a +:+ ".") = false →
  split (a +:+ ".." +:+ b) ".." = a :: split b "..".
Proof.
  unfold split. induction a as [|c a IH]; intros Hno.
  - rewrite append_nil_l. change (".." +:+ b) with (String "." (String "." b)).
    cbn [split_from]. destruct b; done.
  - rewrite append_cons, contains_cons in Hno.
    apply orb_false_iff in Hno as [Hp Hc].
    rewrite append_cons. cbn [split_from].
    assert (Hp' : String.prefix ".." (String c (a +:+ ".." +:+ b)) = false).
    { rewrite prefix_sep_cons in *. destruct (ascii_dec "." c); [|done].
      change (".." +:+ b) with (String "." (String "." b)).
      change "."%string with (String "." "") in Hp at 2.
      by rewrite (prefix_dot_app a _ ""). }
    rewrite Hp', (IH Hc). done.
Qed.

(** The index read by [multiplicity_max] exists whenever the separator
    occurs. *)
Lemma split_fields_of_contains m :
  contains ".." m = true → (2 ≤ length (split m ".."))%nat.
Proof.
  unfold split. induction m as [|c m IH]; [done|].
  rewrite contains_cons. cbn [split_from].
  destruct (String.prefix ".." (String c m)) eqn:Hp.
  - intros _. simpl.
    assert (Hlen : ∀ k s, (1 ≤ length (split_from ".." k s))%nat).
    { clear. intros k s. revert k. induction s as [|c s IHs]; intros k.
      - simpl. lia.
      - cbn [split_from]. destruct k; [|apply IHs].
        destruct (String.prefix ".." (String c s)); [simpl; lia|].
        specialize (IHs 0%nat). destruct (split_from ".." 0 s); simpl in *; lia. }
    specialize (Hlen 1%nat m). lia.
  - simpl. intros Hc. specialize (IH Hc).
    destruct (split_from ".." 0 m); simpl in *; lia.
Qed.

(** C5 (as amended).  The parser takes [min] and [max] from the
    [sourceMultiplicity] string: without the separator [..] both are the
    whole string; otherwise [min] is the part before the first separator and
    [max] the part after it, up to the next separator when there is one.
    ["1..*"] gives ["1"] and ["*"], ["1"] gives ["1"] and ["1"]. *)
Theorem multiplicity_min_max :
  (∀ elem,
     agg_min (parse_aggregation elem)
       = multiplicity_min (get_or elem "sourceMultiplicity" "")
     ∧ agg_max (parse_aggregation elem)
       = multiplicity_max (get_or elem "sourceMultiplicity" ""))
  ∧ (∀ m, contains ".." m = false →
          multiplicity_min m = m ∧ multiplicity_max m = m)
  ∧ (∀ a b, contains ".." (a +:+ ".") = false → contains ".." b = false →
            multiplicity_min (a +:+ ".." +:+ b) = a
            ∧ multiplicity_max (a +:+ ".." +:+ b) = b)
  ∧ (∀ a b c, contains ".." (a +:+ ".") = false →
              contains ".." (b +:+ ".") = false →
              multiplicity_min (a +:+ ".." +:+ b +:+ ".." +:+ c) = a
              ∧ multiplicity_max (a +:+ ".." +:+ b +:+ ".." +:+ c) = b)
  ∧ multiplicity_min "1..*" = "1" ∧ multiplicity_max "1..*" = "*"
  ∧ multiplicity_min "1" = "1" ∧ multiplicity_max "1" = "1".
Proof.
  split_and!; try reflexivity.
  - done.
  - intros m Hm. unfold multiplicity_min, multiplicity_max. by rewrite Hm.
  - intros a b Ha Hb. unfold multiplicity_min, multiplicity_max.
    rewrite contains_sep_app, split_first_sep, split_no_sep by done. done.
  - intros a b c Ha Hb. unfold multiplicity_min, multiplicity_max.
    rewrite contains_sep_app, !split_first_sep by done. done.
Qed.

Lemma multiplicity_min_max_witness :
  contains ".." ("1" +:+ ".") = false
  ∧ contains ".." "*" = false
  ∧ multiplicity_min ("1" +:+ ".." +:+ "*") = "1"
  ∧ multiplicity_max ("1" +:+ ".." +:+ "*") = "*".
Proof.
  split; [reflexivity|]. split; [reflexivity|].
  destruct multiplicity_min_max as (_ & _ & Hone & _).
  apply (Hone "1" "*"); reflexivity.
Defined.

(** C5 as stated fails: [max] is not always the part after the separator.
    In ["1..2..3"] the part after the first separator is ["2..3"], and
    [max] is ["2"]. *)
Lemma multiplicity_max_not_rest :
  multiplicity_max ("1" +:+ ".." +:+ "2..3") = "2"
  ∧ ¬ (∀ a b, contains ".." (a +:+ ".") = false →
              multiplicity_max (a +:+ ".." +:+ b) = b).
Proof.
  split; [reflexivity|]. intros Hall.
  specialize (Hall "1" "2..3" eq_refl). vm_compute in Hall. discriminate.
Qed.

(* ===================================================================== *)
(** ** xml_data.py: relationship resolution *)
(* ===================================================================== *)

Lemma dict_alter_absent {K V} `{EqDecision K} (f : V → V) (d : list (K * V)) k :
  dict_get k d = None → dict_alter f k d = d.
Proof.
  induction d as [|[k0 v0] d IH]; [done|]. cbn [dict_get dict_alter].
  destruct (decide (k = k0)); [done|]. intros Hk. by rewrite IH.
Qed.

(** Changing the object under a key changes the one entry with that key. *)
Lemma dict_alter_fmap {K V} `{EqDecision K} (f : V → V) (d : list (K * V)) k :
  NoDup (dict_keys d) →
  dict_alter f k d
  = (fun kv => (kv.1, if decide (kv.1 = k) then f kv.2 else kv.2)) <$> d.
Proof.
  unfold dict_keys. induction d as [|[k0 v0] d IH]; [done|].
  rewrite fmap_cons. intros [Hk0 Hnd]%NoDup_cons.
  cbn [dict_alter fst snd]. rewrite (fmap_cons _ (k0, v0)). cbn [fst snd].
  destruct (decide (k = k0)) as [->|Hne].
  - rewrite decide_True by done. f_equal.
    rewrite <- (list_fmap_id d) at 1. apply list_fmap_ext.
    intros i [k1 v1] Hi. simpl. rewrite decide_False; [done|].
    intros ->. apply Hk0. apply list_elem_of_fmap. exists (k0, v1).
    split; [done|]. by eapply list_elem_of_lookup_2.
  - rewrite decide_False by done. by rewrite IH.
Qed.

Lemma resolved_class_nil c item : resolved_class c [] item = item.
Proof. destruct item. unfold resolved_class. simpl. by rewrite app_nil_r. Qed.

Lemma resolved_class_snoc c aggs agg item :
  resolved_class c (aggs ++ [agg]) item
  = resolved_class c [agg] (resolved_class c aggs item).
Proof.
  unfold resolved_class. simpl. rewrite !filter_app, fmap_app, app_assoc.
  rewrite !filter_cons, !filter_nil.
  destruct (decide (source agg = c)); [by rewrite last_snoc|].
  by rewrite app_nil_r.
Qed.

(** One turn of the loop, read as a change of every record. *)
Lemma resolve_one_fmap classes agg :
  NoDup (dict_keys classes) →
  resolve_one classes agg
  = (fun kv => (kv.1, resolved_class kv.1 [agg] kv.2)) <$> classes.
Proof.
  intros Hnd. unfold resolve_one.
  set (classes1 := if dict_get (target agg) classes is Some _
                   then dict_alter (append_class_param (source agg))
                          (target agg) classes
                   else classes).
  assert (H1 : classes1 = dict_alter (append_class_param (source agg))
                            (target agg) classes).
  { unfold classes1. destruct (dict_get (target agg) classes) eqn:Hg; [done|].
    by rewrite dict_alter_absent. }
  assert (H2 : (if dict_get (source agg) classes1 is Some _
                then dict_alter (update_min_max (agg_min agg) (agg_max agg))
                       (source agg) classes1
                else classes1)
               = dict_alter (update_min_max (agg_min agg) (agg_max agg))
                   (source agg) classes1).
  { destruct (dict_get (source agg) classes1) eqn:Hg; [done|].
    by rewrite dict_alter_absent. }
  rewrite H2, H1.
  rewrite (dict_alter_fmap _ (dict_alter _ _ _))
    by (by rewrite dict_keys_alter).
  rewrite dict_alter_fmap by done. rewrite <- list_fmap_compose.
  apply list_fmap_ext. intros i [k item] _. simpl. f_equal.
  unfold resolved_class. rewrite !filter_cons, !filter_nil.
  destruct item as [cl doc ir ps lo hi].
  destruct (decide (k = target agg)) as [Ht|Ht];
    destruct (decide (k = source agg)) as [Hs|Hs]; simpl.
  - rewrite !decide_True by done. done.
  - rewrite decide_True by done. rewrite decide_False by done. done.
  - rewrite decide_False by done. rewrite decide_True by done. simpl.
    by rewrite app_nil_r.
  - rewrite !decide_False by done. simpl. by rewrite app_nil_r.
Qed.

Lemma resolve_relationships_fmap classes aggs :
  NoDup (dict_keys classes) →
  _resolve_relationships classes aggs
  = (fun kv => (kv.1, resolved_class kv.1 aggs kv.2)) <$> classes.
Proof.
  intros Hnd. unfold _resolve_relationships.
  induction aggs as [|agg aggs IH] using rev_ind.
  - simpl. rewrite <- (list_fmap_id classes) at 1. apply list_fmap_ext.
    intros i [k item] _. simpl. by rewrite resolved_class_nil.
  - rewrite foldl_app. simpl. rewrite IH.
    rewrite resolve_one_fmap.
    + rewrite <- list_fmap_compose. apply list_fmap_ext.
      intros i [k item] _. simpl. by rewrite resolved_class_snoc.
    + unfold dict_keys. rewrite <- list_fmap_compose.
      by replace (fst ∘ _) with (fst (A:=option string) (B:=class_data)).
Qed.

(** *** The mapping of the parser *)

Lemma dict_keys_foldl_set (l : list class_data)
    (d : list (option string * class_data)) :
  dict_keys (foldl (fun d item => dict_set (class item) item d) d l)
  = (dict_keys d ++ first_seen (dict_keys d) (class <$> l))%list.
Proof.
  revert d. induction l as [|c l IH]; intros d.
  { simpl. by rewrite app_nil_r. }
  rewrite fmap_cons. cbn [foldl first_seen]. rewrite IH, dict_keys_set.
  destruct (decide (class c ∈ dict_keys d)); [done|].
  by rewrite <- app_assoc.
Qed.

Lemma NoDup_first_seen {K} `{EqDecision K} (seen l : list K) :
  NoDup seen → NoDup (seen ++ first_seen seen l).
Proof.
  revert seen. induction l as [|k l IH]; intros seen Hnd; simpl.
  { by rewrite app_nil_r. }
  destruct (decide (k ∈ seen)) as [Hin|Hnin]; [by apply IH|].
  change (k :: first_seen (seen ++ [k]) l)%list
    with ([k] ++ first_seen (seen ++ [k]) l)%list.
  rewrite app_assoc. apply IH. apply NoDup_app. split_and!; [done| |].
  - intros x Hx ->%list_elem_of_singleton. done.
  - apply NoDup_singleton.
Qed.

Lemma NoDup_dict_keys_data_of l : NoDup (dict_keys (data_of l)).
Proof.
  unfold data_of. rewrite dict_keys_foldl_set.
  apply (NoDup_first_seen [] (class <$> l)). constructor.
Qed.

(** Every record is stored under its own class name. *)
Lemma data_of_keyed l :
  Forall (fun kv => class kv.2 = kv.1) (data_of l).
Proof.
  unfold data_of.
  assert (Hgen : ∀ d : list (option string * class_data),
    Forall (fun kv => class kv.2 = kv.1) d →
    Forall (fun kv => class kv.2 = kv.1)
           (foldl (fun d item => dict_set (class item) item d) d l)).
  { induction l as [|c l IH]; intros d Hd; [done|]. simpl. apply IH.
    clear IH. induction d as [|[k0 v0] d IHd]; cbn [dict_set].
    - by repeat constructor.
    - apply Forall_cons in Hd as [Hk Hd].
      destruct (decide (class c = k0)); constructor; auto. }
  by apply Hgen.
Qed.

Lemma parse_returns path doc :
  (parse (XMLParser_init path) doc).2
  = (fun kv => resolved_class kv.1
                 (parse_aggregation <$> findall doc "Aggregation") kv.2)
      <$> data_of (parse_class <$> findall doc "Class").
Proof.
  unfold parse. cbn [snd XMLParser_init _classes _aggregations app].
  unfold data_of. rewrite foldl_fmap.
  rewrite resolve_relationships_fmap.
  - unfold dict_values. by rewrite <- list_fmap_compose.
  - rewrite <- (foldl_fmap (fun d item => dict_set (class item) item d)
                           [] (findall doc "Class") parse_class).
    apply NoDup_dict_keys_data_of.
Qed.

(** C6.  Resolution changes the records in place, edge after edge: each
    record is the one of [resolved_class] - the class-typed parameters
    named after the sources follow the parameters the record had, in the
    order of the edges, and [min]/[max] come from the last edge whose source
    the class is.  [parse] returns the records in the order in which the
    class names were first declared, each with its declared attributes
    followed by the class-typed parameters. *)
Theorem resolve_relationships_in_order :
  (∀ classes aggs,
     NoDup (dict_keys classes) →
     _resolve_relationships classes aggs
     = (fun kv => (kv.1, resolved_class kv.1 aggs kv.2)) <$> classes)
  ∧ ∀ path doc,
      let decls := parse_class <$> findall doc "Class" in
      let aggs := parse_aggregation <$> findall doc "Aggregation" in
      (parse (XMLParser_init path) doc).2
      = (fun kv => resolved_class kv.1 aggs kv.2) <$> data_of decls
      ∧ class <$> (parse (XMLParser_init path) doc).2
        = first_seen [] (class <$> decls)
      ∧ (NoDup (class <$> decls) →
         (parse (XMLParser_init path) doc).2
         = (fun decl => resolved_class (class decl) aggs decl) <$> decls).
Proof.
  split; [apply resolve_relationships_fmap|].
  intros path doc decls aggs. split_and!.
  - apply parse_returns.
  - rewrite parse_returns. rewrite <- list_fmap_compose.
    transitivity (dict_keys (data_of decls)).
    + unfold dict_keys. apply Forall_fmap_ext.
      eapply Forall_impl; [apply data_of_keyed|]. by intros [k item].
    + unfold data_of. by rewrite dict_keys_foldl_set.
  - intros Hnd. rewrite parse_returns. fold decls aggs.
    unfold data_of. rewrite foldl_dict_set_distinct; [|done|].
    + simpl. by rewrite <- list_fmap_compose.
    + intros c _. apply not_elem_of_nil.
Qed.

Lemma resolve_relationships_in_order_witness :
  NoDup (class <$> (parse_class <$> findall car_doc "Class"))
  ∧ (parse (XMLParser_init "input.xml") car_doc).2
    = [ClassData (Some "Car") "" true
         [Param (Some "speed") (Some "int"); Param (Some "Engine") (Some "class")]
         None None;
       ClassData (Some "Engine") "" false [] (Some "1") (Some "1")].
Proof.
  assert (Hnd : NoDup (class <$> (parse_class <$> findall car_doc "Class"))).
  { compute_done. }
  split; [exact Hnd|].
  destruct resolve_relationships_in_order as [_ Hparse].
  destruct (Hparse "input.xml" car_doc) as (_ & _ & Hdistinct).
  rewrite (Hdistinct Hnd). reflexivity.
Defined.

(* ===================================================================== *)
(** ** xml_data.py: the built tree *)
(* ===================================================================== *)

Lemma mapM_Ok {A B} (f : A → result B) l ys :
  mapM f l = Ok ys ↔ Forall2 (fun x y => f x = Ok y) l ys.
Proof.
  revert ys. induction l as [|x l IH]; intros ys; simpl.
  - split; [intros [= <-]; constructor|by inversion 1].
  - split.
    + destruct (f x) as [y|e] eqn:Hx; simpl; [|done].
      destruct (mapM f l) as [ys'|e] eqn:Hl; simpl; [|done].
      intros [= <-]. constructor; [done|]. by apply IH.
    + inversion 1 as [|? y ? ys' Hx Hl]; subst. rewrite Hx. simpl.
      apply IH in Hl. rewrite Hl. done.
Qed.

Lemma dict_get_Some_elem {K V} `{EqDecision K} (d : list (K * V)) k v :
  dict_get k d = Some v → (k, v) ∈ d.
Proof.
  induction d as [|[k0 v0] d IH]; [done|]. cbn [dict_get].
  destruct (decide (k = k0)) as [->|?].
  - intros [= ->]. by left.
  - intros Hk. right. by apply IH.
Qed.

Lemma elem_dict_get {K V} `{EqDecision K} (d : list (K * V)) k v :
  NoDup (dict_keys d) → (k, v) ∈ d → dict_get k d = Some v.
Proof.
  unfold dict_keys. induction d as [|[k0 v0] d IH]; [by intros _ ?%elem_of_nil|].
  rewrite fmap_cons. intros [Hk0 Hnd]%NoDup_cons. cbn [dict_get].
  intros [[= -> ->]|Hin]%elem_of_cons.
  - by rewrite decide_True.
  - rewrite decide_False; [by apply IH|].
    intros ->. apply Hk0. apply list_elem_of_fmap. by exists (k0, v).
Qed.

Lemma references_closed_get self_data c item p :
  references_closed self_data →
  dict_get c self_data = Some item → p ∈ parameters item →
  is_class_param p → is_Some (dict_get (param_name p) self_data).
Proof.
  intros Hclosed Hc%dict_get_Some_elem Hp.
  eapply Forall_forall in Hclosed; [|exact Hc].
  eapply Forall_forall in Hclosed; [|exact Hp]. done.
Qed.

Lemma ranked_get self_data rank c item p :
  ranked self_data rank →
  dict_get c self_data = Some item → p ∈ parameters item →
  is_class_param p → (rank (param_name p) < rank c)%nat.
Proof.
  intros Hrank Hc%dict_get_Some_elem Hp.
  eapply Forall_forall in Hrank; [|exact Hc].
  eapply Forall_forall in Hrank; [|exact Hp]. done.
Qed.

Lemma build_component_S depth self_data c :
  _build_component_obj (S depth) self_data c =
    match dict_get c self_data with
    | None => Raise KeyError
    | Some item =>
        kids ← mapM (build_child depth self_data) (parameters item);
        Ok (mkXMLComposite c None kids)
    end.
Proof. reflexivity. Qed.

(** What [_build_component_obj] returns on success. *)
Lemma build_component_Ok depth self_data c t :
  _build_component_obj depth self_data c = Ok t ↔
  ∃ depth' item kids,
    depth = S depth' ∧ dict_get c self_data = Some item
    ∧ Forall2 (fun p kid => build_child depth' self_data p = Ok kid)
              (parameters item) kids
    ∧ t = mkXMLComposite c None kids.
Proof.
  destruct depth as [|depth'].
  { split; [done|]. by intros (? & ? & ? & ? & _). }
  rewrite build_component_S. split.
  - destruct (dict_get c self_data) as [item|] eqn:Hc; [|done].
    destruct (mapM _ _) as [kids|e] eqn:Hk; simpl; [|done].
    intros [= <-]. apply mapM_Ok in Hk. by exists depth', item, kids.
  - intros (? & item & kids & [= <-] & -> & Hk & ->).
    apply mapM_Ok in Hk. by rewrite Hk.
Qed.

(** More recursion depth does not change a result. *)
Lemma build_component_mono depth self_data c t :
  _build_component_obj depth self_data c = Ok t →
  ∀ depth', (depth ≤ depth')%nat →
            _build_component_obj depth' self_data c = Ok t.
Proof.
  revert c t. induction depth as [|d IH]; intros c t Hb d' Hle; [done|].
  apply build_component_Ok in Hb as (? & item & kids & [= <-] & Hc & Hk & ->).
  destruct d' as [|d']; [lia|].
  apply build_component_Ok. exists d', item, kids. split_and!; try done.
  eapply Forall2_impl; [exact Hk|]. intros p kid. unfold build_child.
  destruct (decide _); [|done]. intros Hp. apply (IH _ _ Hp). lia.
Qed.

(** With closed references and no cycle the recursion ends: a depth above
    the rank of the class is enough. *)
Lemma build_component_total self_data rank :
  references_closed self_data → ranked self_data rank →
  ∀ depth c, (rank c < depth)%nat → is_Some (dict_get c self_data) →
             ∃ t, _build_component_obj depth self_data c = Ok t.
Proof.
  intros Hclosed Hrank. induction depth as [|d IH]; intros c Hlt [item Hc].
  { lia. }
  assert (Hkids : ∃ kids,
    Forall2 (fun p kid => build_child d self_data p = Ok kid)
            (parameters item) kids).
  { assert (Hps : ∀ p, p ∈ parameters item →
                       ∃ kid, build_child d self_data p = Ok kid).
    { intros p Hp. unfold build_child.
      destruct (decide (param_type p = Some "class")) as [Hcls|]; [|eauto].
      apply IH.
      - pose proof (ranked_get _ _ c item p Hrank Hc Hp Hcls). lia.
      - by apply (references_closed_get _ c item p). }
    clear Hc. induction (parameters item) as [|p ps IHps].
    - exists []. constructor.
    - destruct (Hps p) as [kid Hkid]; [by left|].
      destruct IHps as [kids Hkids]; [intros; apply Hps; by right|].
      exists (kid :: kids). by constructor. }
  destruct Hkids as [kids Hkids].
  exists (mkXMLComposite c None kids).
  apply build_component_Ok. by exists d, item, kids.
Qed.

(** The tree built for a class is the tree of that class. *)
Lemma build_component_tree_of depth self_data c t :
  _build_component_obj depth self_data c = Ok t → tree_of self_data c t.
Proof.
  revert c t. induction depth as [|d IH]; intros c t Hb; [done|].
  apply build_component_Ok in Hb as (? & item & kids & [= <-] & Hc & Hk & ->).
  econstructor; [done|].
  eapply Forall2_impl; [exact Hk|]. intros p kid. unfold build_child.
  destruct (decide (param_type p = Some "class")) as [Hcls|Hcls].
  - intros Hp. apply child_of_class; [done|]. by apply IH.
  - intros [= <-]. by apply child_of_attribute.
Qed.

(** The root record is stored under its class name. *)
Lemma root_in_data json_data r :
  root (XMLBuilder_init json_data) = Some r →
  dict_get (class r) (data_of json_data) = Some r ∧ r ∈ json_data.
Proof.
  intros Hroot.
  apply find_root_loop_Some in Hroot as (before & after & Hvals & _ & _).
  assert (Hr : r ∈ dict_values (data_of json_data)).
  { cbn [data XMLBuilder_init] in Hvals. rewrite Hvals.
    apply elem_of_app. right. by left. }
  split; [|by apply data_of_values].
  apply list_elem_of_fmap in Hr as ([k r'] & -> & Hkr). simpl.
  pose proof (data_of_keyed json_data) as Hkeyed.
  eapply Forall_forall in Hkeyed; [|exact Hkr]. simpl in Hkeyed.
  rewrite Hkeyed. apply elem_dict_get; [apply NoDup_dict_keys_data_of|done].
Qed.



(** *** Depth of the tree and of the class references *)

Lemma max_list_ge (l : list nat) x : x ∈ l → (x ≤ max_list l)%nat.
Proof. induction 1 as [x l|x y l _ IH]; simpl; lia. Qed.

Lemma max_list_le (l : list nat) n :
  (∀ x, x ∈ l → (x ≤ n)%nat) → (max_list l ≤ n)%nat.
Proof.
  induction l as [|y l IH]; intros Hall; simpl; [lia|].
  assert (y ≤ n)%nat by (apply Hall; by left).
  assert (max_list l ≤ n)%nat by (apply IH; intros; apply Hall; by right).
  lia.
Qed.

Lemma max_list_app (l1 l2 : list nat) :
  max_list (l1 ++ l2) = Nat.max (max_list l1) (max_list l2).
Proof. induction l1 as [|x l1 IH]; simpl; [done|]. rewrite IH. lia. Qed.

Lemma Forall2_elem_l {A B} (R : A → B → Prop) l k x :
  Forall2 R l k → x ∈ l → ∃ y, y ∈ k ∧ R x y.
Proof.
  induction 1 as [|a b l k Hab _ IH]; [by intros ?%elem_of_nil|].
  intros [->|Hx]%elem_of_cons.
  - exists b. split; [by left|done].
  - destruct (IH Hx) as (y & ? & ?). exists y. split; [by right|done].
Qed.

Lemma Forall2_elem_r {A B} (R : A → B → Prop) l k y :
  Forall2 R l k → y ∈ k → ∃ x, x ∈ l ∧ R x y.
Proof.
  induction 1 as [|a b l k Hab _ IH]; [by intros ?%elem_of_nil|].
  intros [->|Hy]%elem_of_cons.
  - exists a. split; [by left|done].
  - destruct (IH Hy) as (x & ? & ?). exists x. split; [by right|done].
Qed.

Lemma tree_depth_node n av kids :
  tree_depth (mkXMLComposite n av kids) =
    match kids with
    | [] => 0%nat
    | _ :: _ => S (max_list (map tree_depth kids))
    end.
Proof. by destruct kids. Qed.

(** The built tree is as deep as the longest chain of class references
    from its class, or one level deeper. *)
Lemma tree_depth_chain_depth depth self_data c t :
  _build_component_obj depth self_data c = Ok t →
  (chain_depth depth self_data c ≤ tree_depth t)%nat
  ∧ (tree_depth t ≤ S (chain_depth depth self_data c))%nat.
Proof.
  revert c t. induction depth as [|d IH]; intros c t Hb; [done|].
  apply build_component_Ok in Hb as (? & item & kids & [= <-] & Hc & Hk & ->).
  cbn [chain_depth]. rewrite Hc, tree_depth_node.
  set (chains := (fun p => S (chain_depth d self_data (param_name p)))
                   <$> filter is_class_param (parameters item)).
  split.
  - apply max_list_le. intros x (p & -> & Hp)%list_elem_of_fmap.
    apply list_elem_of_filter in Hp as [Hcls Hp].
    destruct (Forall2_elem_l _ _ _ _ Hk Hp) as (kid & Hkid & Hbuild).
    unfold build_child in Hbuild. rewrite decide_True in Hbuild by done.
    apply IH in Hbuild as [Hlo _].
    destruct kids as [|k0 ks]; [by apply elem_of_nil in Hkid|].
    assert (tree_depth kid ≤ max_list (map tree_depth (k0 :: ks)))%nat.
    { apply max_list_ge, list_elem_of_fmap. eauto. }
    lia.
  - destruct kids as [|k0 ks]; [lia|].
    apply le_n_S, max_list_le. intros x (kid & -> & Hkid)%list_elem_of_fmap.
    destruct (Forall2_elem_r _ _ _ _ Hk Hkid) as (p & Hp & Hbuild).
    unfold build_child in Hbuild.
    destruct (decide (param_type p = Some "class")) as [Hcls|Hcls].
    + apply IH in Hbuild as [_ Hhi].
      assert (S (chain_depth d self_data (param_name p)) ≤ max_list chains)%nat.
      { apply max_list_ge, list_elem_of_fmap. exists p. split; [done|].
        by apply list_elem_of_filter. }
      lia.
    + injection Hbuild as <-. rewrite tree_depth_node. lia.
Qed.

(** Without a cycle the chain depth does not depend on the fuel, once the
    fuel exceeds the rank of the class. *)
Lemma chain_depth_stable self_data rank :
  ranked self_data rank →
  ∀ n m c, (rank c < n)%nat → (rank c < m)%nat →
           chain_depth n self_data c = chain_depth m self_data c.
Proof.
  intros Hrank. induction n as [|n IH]; intros m c Hn Hm; [lia|].
  destruct m as [|m]; [lia|]. cbn [chain_depth].
  destruct (dict_get c self_data) as [item|] eqn:Hc; [|done].
  f_equal. apply list_fmap_ext. intros i p Hi. f_equal.
  apply list_elem_of_lookup_2, list_elem_of_filter in Hi as [Hcls Hp].
  pose proof (ranked_get _ _ c item p Hrank Hc Hp Hcls).
  apply IH; lia.
Qed.

(** *** The lines of a rendered text *)

Lemma prefix_nl_cons c s :
  String.prefix nl (String c s) = bool_decide (ascii_of_nat 10 = c).
Proof.
  change (String.prefix nl (String c s))
    with (if ascii_dec (ascii_of_nat 10) c then String.prefix "" s else false).
  rewrite prefix_nil.
  destruct (ascii_dec (ascii_of_nat 10) c) as [Heq|Hne].
  - by rewrite bool_decide_eq_true_2.
  - by rewrite bool_decide_eq_false_2.
Qed.

Lemma contains_nl_app a b :
  contains nl (a +:+ b) = contains nl a || contains nl b.
Proof.
  induction a as [|c a IH].
  - rewrite append_nil_l. by destruct b.
  - rewrite append_cons, !contains_cons, !prefix_nl_cons, IH.
    by rewrite orb_assoc.
Qed.

Lemma split_nl_single line : contains nl line = false → split line nl = [line].
Proof.
  unfold split. induction line as [|c line IH]; [done|].
  rewrite contains_cons. intros [Hp Hc]%orb_false_iff.
  cbn [split_from]. rewrite Hp, (IH Hc). done.
Qed.

Lemma split_nl_line line rest :
  contains nl line = false →
  split (line +:+ nl +:+ rest) nl = line :: split rest nl.
Proof.
  unfold split. induction line as [|c line IH]; intros Hno.
  - rewrite append_nil_l. unfold nl at 2. rewrite append_cons, append_nil_l.
    cbn [split_from]. rewrite prefix_nl_cons, bool_decide_eq_true_2 by done.
    done.
  - rewrite contains_cons in Hno. apply orb_false_iff in Hno as [Hp Hc].
    rewrite append_cons. cbn [split_from].
    rewrite prefix_nl_cons in *. rewrite Hp, (IH Hc). done.
Qed.

(** Splitting the newline-join of lines without newlines gives the lines
    back. *)
Lemma split_join_lines lines :
  lines ≠ [] → Forall (fun line => contains nl line = false) lines →
  split (join nl lines) nl = lines.
Proof.
  induction lines as [|line lines IH]; [done|]. intros _ Hall.
  apply Forall_cons in Hall as [Hline Hall].
  destruct lines as [|line' lines].
  - by apply split_nl_single.
  - rewrite join_cons_cons, split_nl_line by done. f_equal. by apply IH.
Qed.

Lemma contains_nl_str_repeat n : contains nl (str_repeat "    " n) = false.
Proof.
  induction n as [|n IH]; [done|]. simpl. by rewrite contains_nl_app, IH.
Qed.

Lemma leading_spaces_spaces n c rest :
  c ≠ " "%char → leading_spaces (spaces n +:+ String c rest) = n.
Proof.
  intros Hc. unfold spaces. induction n as [|n IH].
  - simpl. destruct c as [[] [] [] [] [] [] [] []]; done.
  - simpl. by rewrite append_nil_l, IH.
Qed.

(** A line that starts a tag after the indentation of level [indent] is at
    that level. *)
Lemma line_level_tag indent rest :
  line_level (indent_str indent +:+ String "<" rest) = Z.to_nat indent.
Proof.
  unfold line_level, indent_str. rewrite str_repeat_spaces.
  rewrite leading_spaces_spaces by done.
  rewrite Nat.mul_comm. apply Nat.div_mul. done.
Qed.

Lemma open_tag_cons n : open_tag n = String "<" (fmt n +:+ ">").
Proof. reflexivity. Qed.

Lemma close_tag_cons n : close_tag n = String "<" (String "/" (fmt n +:+ ">")).
Proof. reflexivity. Qed.

Lemma max_list_concat (f : string → nat) (L : list (list string)) :
  max_list (f <$> concat L) = max_list ((fun x => max_list (f <$> x)) <$> L).
Proof.
  induction L as [|x L IH]; [done|].
  cbn [concat]. rewrite fmap_app, max_list_app, fmap_cons, IH. done.
Qed.

Lemma max_list_cons x (l : list nat) :
  max_list (x :: l) = Nat.max x (max_list l).
Proof. reflexivity. Qed.

Lemma max_list_add (n : nat) (l : list nat) :
  l ≠ [] → max_list ((fun x => n + x)%nat <$> l) = (n + max_list l)%nat.
Proof.
  induction l as [|x l IH]; [done|]. intros _.
  rewrite fmap_cons, !max_list_cons.
  destruct l as [|y l]; [simpl; lia|]. rewrite IH by done. lia.
Qed.

(** The deepest line of a rendered tree is as many levels below the first
    line as the tree is deep. *)
Lemma to_xml_lines_level t : ∀ indent,
  (0 ≤ indent)%Z →
  max_list (line_level <$> to_xml_lines t indent)
  = (Z.to_nat indent + tree_depth t)%nat.
Proof.
  induction t as [n av ch IH] using XMLComposite_tree_ind. intros indent Hi.
  rewrite tree_depth_node. destruct ch as [|k ks].
  - destruct av as [[|c v]|]; cbn [to_xml_lines];
      rewrite ?fmap_cons, ?open_tag_cons, ?close_tag_cons, ?append_cons,
        ?line_level_tag; simpl; lia.
  - cbn [to_xml_lines].
    rewrite !fmap_app, !max_list_app, max_list_concat.
    rewrite !list_fmap_singleton, open_tag_cons, close_tag_cons,
      !line_level_tag.
    rewrite <- list_fmap_compose.
    assert (Hkids :
      (fun x => max_list (line_level <$> x))
        ∘ (fun child => to_xml_lines child (indent + 1)) <$> (k :: ks)
      = (fun x => (S (Z.to_nat indent) + x)%nat)
          <$> (tree_depth <$> (k :: ks))).
    { rewrite <- list_fmap_compose. apply Forall_fmap_ext.
      eapply Forall_impl; [exact IH|]. intros child Hc. simpl.
      rewrite Hc by lia. f_equal. lia. }
    rewrite Hkids, max_list_add by done.
    change (map tree_depth (k :: ks)) with (tree_depth <$> (k :: ks)).
    simpl. lia.
Qed.

(** *** Lines without newlines *)

Lemma tag_lines_one_line n indent :
  one_line n →
  contains nl (indent_str indent +:+ open_tag n) = false
  ∧ contains nl (indent_str indent +:+ close_tag n) = false.
Proof.
  unfold one_line, indent_str, open_tag, close_tag. intros Hn.
  rewrite !contains_nl_app, contains_nl_str_repeat, Hn. done.
Qed.

Lemma leaf_lines_one_line n ty indent :
  one_line n → one_line ty →
  Forall (fun line => contains nl line = false)
         (to_xml_lines (mkXMLComposite n ty []) indent).
Proof.
  intros Hn Hty. destruct (tag_lines_one_line n indent Hn) as [Ho Hc].
  destruct ty as [[|c v]|]; cbn [to_xml_lines]; repeat constructor; try done.
  change (contains nl (String c v) = false) in Hty.
  unfold indent_str, open_tag, close_tag.
  unfold one_line in Hn.
  rewrite !contains_nl_app, contains_nl_str_repeat, Hn, Hty. done.
Qed.

Lemma dict_get_Some_values {K V} `{EqDecision K} (d : list (K * V)) k v :
  dict_get k d = Some v → v ∈ dict_values d.
Proof.
  intros Hk%dict_get_Some_elem. apply list_elem_of_fmap. by exists (k, v).
Qed.

(** The lines of a built tree hold no newline when the names and types of
    the model hold none. *)
Lemma build_lines_one_line depth self_data c t :
  Forall one_line_class (dict_values self_data) →
  one_line c →
  _build_component_obj depth self_data c = Ok t →
  ∀ indent, Forall (fun line => contains nl line = false)
                   (to_xml_lines t indent).
Proof.
  intros Hdata. revert c t. induction depth as [|d IH]; intros c t Hc Hb;
    [done|].
  apply build_component_Ok in Hb as (? & item & kids & [= <-] & Hg & Hk & ->).
  intros indent. destruct (tag_lines_one_line c indent Hc) as [Ho Hcl].
  destruct kids as [|k0 ks]; cbn [to_xml_lines]; [by repeat constructor|].
  apply Forall_app. split; [by repeat constructor|].
  apply Forall_app. split; [|by repeat constructor].
  apply Forall_concat, Forall_map, Forall_forall. intros kid Hkid. simpl.
  destruct (Forall2_elem_r _ _ _ _ Hk Hkid) as (p & Hp & Hbuild).
  apply dict_get_Some_values in Hg.
  eapply Forall_forall in Hdata; [|exact Hg]. destruct Hdata as [_ Hps].
  eapply Forall_forall in Hps; [|exact Hp]. destruct Hps as [Hpn Hpt].
  unfold build_child in Hbuild. destruct (decide _).
  - by apply (IH (param_name p)).
  - injection Hbuild as <-. by apply leaf_lines_one_line.
Qed.

(** *** Leaf tags and visited classes *)

Lemma leaf_tags_class_node c kids :
  leaf_tags (mkXMLComposite c None kids) = kids ≫= leaf_tags.
Proof. by destruct kids. Qed.

Lemma visits_S d self_data c :
  visits (S d) self_data c =
    match dict_get c self_data with
    | None => []
    | Some item => c :: (class_refs item ≫= visits d self_data)
    end.
Proof. reflexivity. Qed.

Lemma elem_of_class_refs item q :
  q ∈ class_refs item ↔
  ∃ p, p ∈ parameters item ∧ is_class_param p ∧ q = param_name p.
Proof.
  unfold class_refs. rewrite list_elem_of_fmap. split.
  - intros (p & -> & [Hcls Hp]%list_elem_of_filter). eauto.
  - intros (p & Hp & Hcls & ->). exists p. split; [done|].
    by apply list_elem_of_filter.
Qed.

(** The leaf tags below the children built for a list of parameters. *)
Lemma build_kids_leaf_tags d self_data ps kids :
  (∀ c t, _build_component_obj d self_data c = Ok t →
          leaf_tags t ≡ₚ visits d self_data c ≫= typed_attributes self_data) →
  Forall2 (fun p kid => build_child d self_data p = Ok kid) ps kids →
  kids ≫= leaf_tags
  ≡ₚ omap typed_attribute ps
     ++ (((param_name <$> filter is_class_param ps) ≫= visits d self_data)
           ≫= typed_attributes self_data).
Proof.
  intros IH. induction 1 as [|p kid ps kids Hp _ IHkids]; [done|].
  rewrite bind_cons, IHkids. unfold build_child in Hp. cbn [omap list_omap].
  unfold typed_attribute at 2.
  destruct (decide (param_type p = Some "class")) as [Hcls|Hcls].
  - rewrite decide_True by done.
    rewrite filter_cons_True by done.
    rewrite fmap_cons, bind_cons, bind_app.
    rewrite (IH _ _ Hp). apply Permutation_app_swap_app.
  - rewrite decide_False by done. rewrite filter_cons_False by done.
    injection Hp as <-. cbn [leaf_tags].
    by destruct (param_type p) as [[|ch v]|].
Qed.

(** The leaf tags of a built tree are the typed attributes of the visited
    classes, one set for each visit. *)
Lemma build_leaf_tags depth self_data c t :
  _build_component_obj depth self_data c = Ok t →
  leaf_tags t ≡ₚ visits depth self_data c ≫= typed_attributes self_data.
Proof.
  revert c t. induction depth as [|d IH]; intros c t Hb; [done|].
  apply build_component_Ok in Hb as (? & item & kids & [= <-] & Hc & Hk & ->).
  rewrite leaf_tags_class_node, visits_S, Hc, bind_cons.
  unfold typed_attributes at 1. rewrite Hc.
  by apply build_kids_leaf_tags.
Qed.

Lemma ranked_refs self_data rank c item q :
  ranked self_data rank → dict_get c self_data = Some item →
  q ∈ class_refs item → (rank q < rank c)%nat.
Proof.
  intros Hrank Hc (p & Hp & Hcls & ->)%elem_of_class_refs.
  by apply (ranked_get self_data rank c item p).
Qed.

Lemma rank_visits self_data rank :
  ranked self_data rank →
  ∀ d c y, y ∈ visits d self_data c → (rank y ≤ rank c)%nat.
Proof.
  intros Hrank. induction d as [|d IH]; intros c y; [by intros ?%elem_of_nil|].
  rewrite visits_S. destruct (dict_get c self_data) as [item|] eqn:Hc;
    [|by intros ?%elem_of_nil].
  intros [->|(q & Hy & Hq)%list_elem_of_bind]%elem_of_cons; [lia|].
  apply IH in Hy. pose proof (ranked_refs _ _ _ _ _ Hrank Hc Hq). lia.
Qed.

(** A visited class is the start of the visit or is referred to by a
    visited class. *)
Lemma visits_parent self_data d c y :
  y ∈ visits d self_data c →
  y = c ∨ ∃ z item, z ∈ visits d self_data c
                    ∧ dict_get z self_data = Some item ∧ y ∈ class_refs item.
Proof.
  revert c. induction d as [|d IH]; intros c; [by intros ?%elem_of_nil|].
  rewrite visits_S. destruct (dict_get c self_data) as [item|] eqn:Hc;
    [|by intros ?%elem_of_nil].
  intros [->|(q & Hy & Hq)%list_elem_of_bind]%elem_of_cons; [by left|].
  right. destruct (IH _ Hy) as [->|(z & item' & Hz & Hg & Hyz)].
  - exists c, item. split_and!; [by left|done|done].
  - exists z, item'. split_and!; [|done|done].
    right. apply list_elem_of_bind. eauto.
Qed.

(** When no class is referred to twice, a class has one referring class and
    the references of a class are distinct. *)
Lemma unique_parent self_data c1 c2 item1 item2 x :
  NoDup (all_refs self_data) →
  dict_get c1 self_data = Some item1 → dict_get c2 self_data = Some item2 →
  x ∈ class_refs item1 → x ∈ class_refs item2 → c1 = c2.
Proof.
  unfold all_refs, dict_values.
  induction self_data as [|[k v] rest IH]; [done|].
  rewrite fmap_cons, bind_cons. cbn [snd dict_get].
  intros (Hv & Hdisj & Hrest)%NoDup_app H1 H2 Hx1 Hx2.
  assert (Hin : ∀ c item, dict_get c rest = Some item → x ∈ class_refs item →
                          x ∈ rest.*2 ≫= class_refs).
  { intros c item Hg%dict_get_Some_values Hx.
    apply list_elem_of_bind. eauto. }
  destruct (decide (c1 = k)) as [->|Hne1], (decide (c2 = k)) as [->|Hne2];
    simplify_eq; [done| | |by eapply IH].
  - exfalso. eapply Hdisj; [exact Hx1|]. by eapply Hin.
  - exfalso. eapply Hdisj; [exact Hx2|]. by eapply Hin.
Qed.

Lemma NoDup_class_refs self_data c item :
  NoDup (all_refs self_data) → dict_get c self_data = Some item →
  NoDup (class_refs item).
Proof.
  unfold all_refs, dict_values.
  induction self_data as [|[k v] rest IH]; [done|].
  rewrite fmap_cons, bind_cons. cbn [snd dict_get].
  intros (Hv & _ & Hrest)%NoDup_app.
  destruct (decide (c = k)); [by intros [= <-]|by apply IH].
Qed.

(** The visits that start at two different references of one class share
    no class. *)
Lemma visits_disjoint self_data rank d c item p q :
  ranked self_data rank → NoDup (all_refs self_data) →
  dict_get c self_data = Some item →
  p ∈ class_refs item → q ∈ class_refs item → p ≠ q →
  ∀ x, x ∈ visits d self_data p → x ∈ visits d self_data q → False.
Proof.
  intros Hrank Huniq Hc Hp Hq Hpq x.
  remember (rank c - rank x)%nat as n eqn:Hn. revert x Hn.
  induction n as [n IH] using lt_wf_ind. intros x -> Hxp Hxq.
  pose proof (ranked_refs _ _ _ _ _ Hrank Hc Hp) as Hrp.
  pose proof (ranked_refs _ _ _ _ _ Hrank Hc Hq) as Hrq.
  destruct (visits_parent _ _ _ _ Hxp) as [->|(y1 & i1 & Hy1 & Hg1 & Hx1)].
  { destruct (visits_parent _ _ _ _ Hxq) as [->|(y2 & i2 & Hy2 & Hg2 & Hx2)];
      [done|].
    pose proof (unique_parent _ c y2 item i2 p Huniq Hc Hg2 Hp Hx2) as <-.
    pose proof (rank_visits _ _ Hrank _ _ _ Hy2). lia. }
  destruct (visits_parent _ _ _ _ Hxq) as [->|(y2 & i2 & Hy2 & Hg2 & Hx2)].
  { pose proof (unique_parent _ c y1 item i1 q Huniq Hc Hg1 Hq Hx1) as <-.
    pose proof (rank_visits _ _ Hrank _ _ _ Hy1). lia. }
  pose proof (unique_parent _ y1 y2 i1 i2 x Huniq Hg1 Hg2 Hx1 Hx2) as <-.
  pose proof (ranked_refs _ _ _ _ _ Hrank Hg1 Hx1).
  pose proof (rank_visits _ _ Hrank _ _ _ Hy1).
  apply (IH (rank c - rank y1)%nat) with (x := y1); [lia|done..].
Qed.

(** When no class is referred to twice, no class is visited twice. *)
Lemma NoDup_visits self_data rank :
  ranked self_data rank → NoDup (all_refs self_data) →
  ∀ d c, NoDup (visits d self_data c).
Proof.
  intros Hrank Huniq. induction d as [|d IH]; intros c; [constructor|].
  rewrite visits_S. destruct (dict_get c self_data) as [item|] eqn:Hc;
    [|constructor].
  apply NoDup_cons. split.
  - intros (q & Hy & Hq)%list_elem_of_bind.
    pose proof (rank_visits _ _ Hrank _ _ _ Hy).
    pose proof (ranked_refs _ _ _ _ _ Hrank Hc Hq). lia.
  - apply NoDup_bind; [|auto|by eapply NoDup_class_refs].
    intros p q x Hp Hq Hxp Hxq. destruct (decide (p = q)) as [|Hne]; [done|].
    exfalso. by eapply (visits_disjoint _ rank d c item p q).
Qed.

Lemma visits_stable self_data rank :
  ranked self_data rank →
  ∀ n m c, (rank c < n)%nat → (rank c < m)%nat →
           visits n self_data c = visits m self_data c.
Proof.
  intros Hrank. induction n as [|n IH]; intros m c Hn Hm; [lia|].
  destruct m as [|m]; [lia|]. rewrite !visits_S.
  destruct (dict_get c self_data) as [item|] eqn:Hc; [|done].
  f_equal. apply Forall_bind_ext, Forall_forall. intros q Hq.
  pose proof (ranked_refs _ _ _ _ _ Hrank Hc Hq). apply IH; lia.
Qed.




(** Why the references have to be closed and free of cycles: a class-typed
    parameter that names no declared class ends [build] with [KeyError], a
    class that refers to itself with [RecursionError] at every depth. *)
Lemma render_dangling_reference :
  render_model 5 dangling_doc = Raise KeyError.
Proof. reflexivity. Qed.

Lemma render_cycle depth : render_model depth cycle_doc = Raise RecursionError.
Proof.
  unfold render_model, build.
  set (json_data := (parse (XMLParser_init "input.xml") cycle_doc).2).
  change (parse (XMLParser_init "input.xml") cycle_doc)
    with ((parse (XMLParser_init "input.xml") cycle_doc).1, json_data).
  cbn iota.
  set (loop := ClassData (Some "Loop") "" true
                 [Param (Some "Loop") (Some "class")] (Some "1") (Some "1")).
  assert (Hroot : root (XMLBuilder_init json_data) = Some loop) by reflexivity.
  assert (Hget : dict_get (Some "Loop") (data_of json_data) = Some loop)
    by reflexivity.
  rewrite Hroot. cbn [data XMLBuilder_init class loop].
  assert (Hloop : _build_component_obj depth (data_of json_data) (Some "Loop")
                  = Raise RecursionError).
  { induction depth as [|d IH]; [done|].
    rewrite build_component_S, Hget. cbn [parameters loop mapM].
    unfold build_child at 1. cbn [param_type param_name].
    rewrite decide_True by done. by rewrite IH. }
  by rewrite Hloop.
Qed.

End XmlDataProps.

(* ===================================================================== *)
(** ** config_data.py: further properties of the diff and the patch *)
(* ===================================================================== *)

Module ConfigDataMore.
Import Json JsonFacts ConfigData ConfigDataProps ConfigDataSamples.

Lemma is_Some_last_addition k (l : list addition) :
  is_Some (last_addition k l) ↔ k ∈ add_key <$> l.
Proof.
  unfold last_addition. rewrite fmap_is_Some.
  induction l as [|a l IH] using rev_ind.
  - split; [by intros [? ?]|by intros ?%elem_of_nil].
  - rewrite filter_app, fmap_app, elem_of_app. simpl.
    rewrite list_elem_of_singleton.
    destruct (decide (add_key a = k)) as [Heq|Hne].
    + rewrite filter_cons_True by done. rewrite filter_nil, last_snoc.
      split; [by right|by eexists].
    + rewrite filter_cons_False by done. rewrite filter_nil, app_nil_r, IH.
      split; [by left|]. intros [?|?]; [done|congruence].
Qed.

Lemma is_Some_last_update k (l : list update) :
  is_Some (last_update k l) ↔ k ∈ upd_key <$> l.
Proof.
  unfold last_update. rewrite fmap_is_Some.
  induction l as [|u l IH] using rev_ind.
  - split; [by intros [? ?]|by intros ?%elem_of_nil].
  - rewrite filter_app, fmap_app, elem_of_app. simpl.
    rewrite list_elem_of_singleton.
    destruct (decide (upd_key u = k)) as [Heq|Hne].
    + rewrite filter_cons_True by done. rewrite filter_nil, last_snoc.
      split; [by right|by eexists].
    + rewrite filter_cons_False by done. rewrite filter_nil, app_nil_r, IH.
      split; [by left|]. intros [?|?]; [done|congruence].
Qed.

(** A conjunction folded over the entries of a dictionary holds only when
    it holds of every entry. *)
Lemma fold_and_true_inv (db : gmap string value) (P : value → value → bool)
    (l : list (string * value)) :
  foldr (uncurry (fun k v acc =>
           acc && match db !! k with Some w => P v w | None => false end))
        true l = true →
  ∀ k v, (k, v) ∈ l → ∃ w, db !! k = Some w ∧ P v w = true.
Proof.
  induction l as [|[k0 v0] l IH]; [by intros _ k v ?%elem_of_nil|].
  simpl. intros [Hl H0]%andb_true_iff k v [[= -> ->]|Hin]%elem_of_cons.
  - destruct (db !! k0) as [w|]; [by exists w|done].
  - by apply IH.
Qed.

(** Two dictionaries that are equal have the same keys and pairwise equal
    values. *)
Lemma py_eq_dict_inv (da db : gmap string value) :
  py_eq (VDict da) (VDict db) = true →
  dom da = dom db
  ∧ ∀ k v w, da !! k = Some v → db !! k = Some w → py_eq v w = true.
Proof.
  simpl. intros [Hsize Hfold]%andb_true_iff.
  apply Nat.eqb_eq in Hsize. rewrite map_fold_foldr in Hfold.
  pose proof (fold_and_true_inv db py_eq _ Hfold) as Hall.
  assert (Hsub : dom da ⊆ dom db).
  { intros k [v Hk]%elem_of_dom.
    destruct (Hall k v) as (w & Hw & _); [by apply elem_of_map_to_list|].
    apply elem_of_dom. by exists w. }
  split.
  - apply set_subseteq_size_eq; [done|]. rewrite !size_dom. lia.
  - intros k v w Hv Hw.
    destruct (Hall k v) as (w' & Hw' & Heq); [by apply elem_of_map_to_list|].
    by rewrite Hw in Hw'; injection Hw' as <-.
Qed.

Section SetOrder.
Variable set_iter : gset string → list string.
Hypothesis set_iter_perm : ∀ X, set_iter X ≡ₚ elements X.

Lemma set_iter_nil X : set_iter X = [] ↔ X = ∅.
Proof.
  split.
  - intros Hnil. apply set_eq. intros k.
    rewrite <- (elem_of_set_iter set_iter set_iter_perm), Hnil.
    rewrite elem_of_nil, elem_of_empty. done.
  - intros ->. apply Permutation_nil_r.
    by rewrite set_iter_perm, elements_empty.
Qed.

Lemma set_iter_empty : set_iter ∅ = [].
Proof. apply Permutation_nil_r. by rewrite set_iter_perm, elements_empty. Qed.

Lemma no_update_of_equal (old_config : gmap string value) (l : list string) :
  filter (fun key => py_ne (getitem old_config key) (getitem old_config key)
                     = true) l = [].
Proof.
  induction l as [|k l IH]; [done|].
  rewrite filter_cons_False; [done|].
  unfold py_ne. by rewrite py_eq_refl.
Qed.



(** X2.  Applying the diff of [(old, new)] to the new document changes
    nothing: the patch is idempotent on its result, whatever the keys. *)
Theorem apply_diff_to_new_is_new old_config new_config :
  do_config_changes set_iter new_config
    (find_differences set_iter old_config new_config) = new_config.
Proof.
  apply map_eq. intros k.
  rewrite (do_config_changes_lookup set_iter set_iter_perm).
  cbn [updates additions deletions find_differences].
  rewrite last_update_fmap, last_addition_fmap.
  assert (Hdel : k ∈ set_iter (dom old_config ∖ dom new_config) →
                 new_config !! k = None).
  { rewrite (elem_of_set_iter set_iter set_iter_perm), elem_of_difference.
    intros [_ ?]. by apply not_elem_of_dom. }
  destruct (truthy k).
  - destruct (decide (k ∈ filter _ _)) as [Hu|_].
    { apply list_elem_of_filter in Hu as [_ Hu].
      apply (elem_of_set_iter set_iter set_iter_perm) in Hu.
      apply elem_of_intersection in Hu as [_ Hu].
      by rewrite <- (lookup_getitem _ _ Hu). }
    destruct (decide (k ∈ set_iter (dom new_config ∖ dom old_config))) as [Ha|_].
    { apply (elem_of_set_iter set_iter set_iter_perm) in Ha.
      apply elem_of_difference in Ha as [Ha _].
      by rewrite <- (lookup_getitem _ _ Ha). }
    destruct (decide _) as [Hd|_]; [by rewrite Hdel|done].
  - destruct (decide _) as [Hd|_]; [by rewrite Hdel|done].
Qed.

(** X3.  The value of the empty key in the new document is never applied:
    under the empty key the patched document holds what the old document
    held (nothing, if the key was added). *)
Theorem empty_key_keeps_old_value old_config new_config :
  "" ∈ dom new_config →
  do_config_changes set_iter old_config
    (find_differences set_iter old_config new_config) !! ""
  = old_config !! "".
Proof.
  intros Hnew. rewrite (do_config_changes_lookup set_iter set_iter_perm).
  simpl. rewrite decide_False; [done|].
  rewrite (elem_of_set_iter set_iter set_iter_perm), elem_of_difference.
  by intros [_ ?].
Qed.

(** X4.  What is an addition in one direction is a deletion in the
    other. *)
Theorem additions_are_reverse_deletions old_config new_config :
  addition_keys (find_differences set_iter old_config new_config)
  = deletion_keys (find_differences set_iter new_config old_config)
  ∧ deletion_keys (find_differences set_iter old_config new_config)
    = addition_keys (find_differences set_iter new_config old_config).
Proof.
  split; apply set_eq; intros k;
    by rewrite (elem_of_addition_keys set_iter set_iter_perm),
         (elem_of_deletion_keys set_iter set_iter_perm).
Qed.

(** X5.  The keys of a patched document, for any diff: the non-empty keys
    of the additions and updates, and the old keys that are not listed as
    deleted.  A key that is both written and listed as deleted is kept. *)
Theorem do_config_changes_dom old_config diff :
  dom (do_config_changes set_iter old_config diff)
  = filter (fun k => truthy k = true) (addition_keys diff ∪ update_keys diff)
    ∪ (dom old_config ∖ deletion_keys diff).
Proof.
  apply set_eq. intros k.
  rewrite elem_of_dom, (do_config_changes_lookup set_iter set_iter_perm).
  rewrite elem_of_union, elem_of_filter, elem_of_union, elem_of_difference.
  unfold addition_keys, update_keys, deletion_keys.
  rewrite !elem_of_list_to_set, elem_of_dom.
  rewrite <- is_Some_last_addition, <- is_Some_last_update.
  destruct (truthy k).
  - destruct (last_update k (updates diff)) as [w|];
      destruct (last_addition k (additions diff)) as [v|].
    + split; [intros _|by eauto]. left. split; [done|]. right. by eexists.
    + split; [intros _|by eauto]. left. split; [done|]. right. by eexists.
    + split; [intros _|by eauto]. left. split; [done|]. left. by eexists.
    + destruct (decide (k ∈ deletions diff)).
      * split; [by intros [? ?]|].
        intros [[_ [[? ?]|[? ?]]]|[_ ?]]; done.
      * split; [by right|].
        intros [[_ [[? ?]|[? ?]]]|[? _]]; done.
  - destruct (decide (k ∈ deletions diff)).
    + split; [by intros [? ?]|]. intros [[? _]|[_ ?]]; done.
    + split; [by right|]. intros [[? _]|[? _]]; done.
Qed.

(** X6.  Against an empty document everything is an addition, or a
    deletion; applying the diff towards the empty document removes every
    key, the empty key too. *)
Theorem diff_with_empty_document doc :
  deletions (find_differences set_iter ∅ doc) = []
  ∧ updates (find_differences set_iter ∅ doc) = []
  ∧ addition_keys (find_differences set_iter ∅ doc) = dom doc
  ∧ additions (find_differences set_iter doc ∅) = []
  ∧ updates (find_differences set_iter doc ∅) = []
  ∧ deletion_keys (find_differences set_iter doc ∅) = dom doc
  ∧ do_config_changes set_iter doc (find_differences set_iter doc ∅) = ∅.
Proof.
  assert (Hl : (∅ : gset string) ∖ dom doc = ∅).
  { apply set_eq. intros k. rewrite elem_of_difference, elem_of_empty. tauto. }
  assert (Hil : (∅ : gset string) ∩ dom doc = ∅).
  { apply set_eq. intros k. rewrite elem_of_intersection, elem_of_empty. tauto. }
  assert (Hir : dom doc ∩ (∅ : gset string) = ∅).
  { apply set_eq. intros k. rewrite elem_of_intersection, elem_of_empty. tauto. }
  assert (Hd : deletion_keys (find_differences set_iter doc ∅) = dom doc).
  { apply set_eq. intros k.
    rewrite (elem_of_deletion_keys set_iter set_iter_perm), dom_empty_L.
    rewrite elem_of_empty. tauto. }
  split_and!.
  - simpl. by rewrite dom_empty_L, Hl, set_iter_empty.
  - simpl. by rewrite dom_empty_L, Hil, set_iter_empty.
  - apply set_eq. intros k.
    rewrite (elem_of_addition_keys set_iter set_iter_perm), dom_empty_L.
    rewrite elem_of_empty. tauto.
  - simpl. by rewrite dom_empty_L, Hl, set_iter_empty.
  - simpl. by rewrite dom_empty_L, Hir, set_iter_empty.
  - exact Hd.
  - apply map_eq. intros k. rewrite lookup_empty.
    rewrite (do_config_changes_lookup set_iter set_iter_perm).
    cbn [additions updates deletions find_differences].
    rewrite dom_empty_L, Hl, Hir, set_iter_empty. cbn.
    assert (Hk : (if decide (k ∈ set_iter (dom doc ∖ ∅)) then None
                  else doc !! k) = None).
    { destruct (decide (k ∈ set_iter (dom doc ∖ ∅))) as [|Hk]; [done|].
      apply not_elem_of_dom. intros Hin. apply Hk.
      rewrite (elem_of_set_iter set_iter set_iter_perm), elem_of_difference.
      split; [done|]. apply not_elem_of_empty. }
    rewrite Hk. by destruct (truthy k).
Qed.
End SetOrder.

(** X7.  The order in which sets are iterated changes the order of the
    entries of a diff and nothing else: the lists of two orders are
    permutations of each other, and the patched document is the same. *)
Theorem set_order_is_irrelevant (iter1 iter2 : gset string → list string)
    old_config new_config diff :
  (∀ X, iter1 X ≡ₚ elements X) → (∀ X, iter2 X ≡ₚ elements X) →
  additions (find_differences iter1 old_config new_config)
    ≡ₚ additions (find_differences iter2 old_config new_config)
  ∧ deletions (find_differences iter1 old_config new_config)
    ≡ₚ deletions (find_differences iter2 old_config new_config)
  ∧ updates (find_differences iter1 old_config new_config)
    ≡ₚ updates (find_differences iter2 old_config new_config)
  ∧ do_config_changes iter1 old_config diff
    = do_config_changes iter2 old_config diff.
Proof.
  intros H1 H2. split_and!; simpl.
  - by rewrite H1, H2.
  - by rewrite H1, H2.
  - by rewrite H1, H2.
  - apply map_eq. intros k.
    by rewrite (do_config_changes_lookup iter1 H1),
         (do_config_changes_lookup iter2 H2).
Qed.

(** *** The theorems at the sample documents *)

Lemma reverse_order_perm X : reverse_order X ≡ₚ elements X.
Proof. unfold reverse_order, elements_order. apply reverse_Permutation. Qed.



Lemma apply_diff_to_new_is_new_witness :
  do_config_changes elements_order new_with_empty_key
    (find_differences elements_order old_ab new_with_empty_key)
  = new_with_empty_key.
Proof.
  apply (apply_diff_to_new_is_new elements_order elements_order_perm
           old_ab new_with_empty_key).
Defined.

Lemma empty_key_keeps_old_value_witness :
  do_config_changes elements_order old_ab
    (find_differences elements_order old_ab new_with_empty_key) !! ""
  = None.
Proof.
  apply (empty_key_keeps_old_value elements_order elements_order_perm
           old_ab new_with_empty_key).
  vm_compute. reflexivity.
Defined.

Lemma additions_are_reverse_deletions_witness :
  addition_keys (find_differences elements_order old_ab new_bc)
  = deletion_keys (find_differences elements_order new_bc old_ab).
Proof.
  apply (additions_are_reverse_deletions elements_order elements_order_perm
           old_ab new_bc).
Defined.

Lemma do_config_changes_dom_witness :
  dom (do_config_changes elements_order old_ab diff_update_and_delete)
  = filter (fun k => truthy k = true)
      (addition_keys diff_update_and_delete
       ∪ update_keys diff_update_and_delete)
    ∪ (dom old_ab ∖ deletion_keys diff_update_and_delete).
Proof.
  apply (do_config_changes_dom elements_order elements_order_perm
           old_ab diff_update_and_delete).
Defined.

Lemma diff_with_empty_document_witness :
  do_config_changes elements_order new_with_empty_key
    (find_differences elements_order new_with_empty_key ∅) = ∅.
Proof.
  apply (diff_with_empty_document elements_order elements_order_perm
           new_with_empty_key).
Defined.

Lemma set_order_is_irrelevant_witness :
  do_config_changes elements_order old_ab
    (find_differences elements_order old_ab new_bc)
  = do_config_changes reverse_order old_ab
      (find_differences elements_order old_ab new_bc).
Proof.
  apply (set_order_is_irrelevant elements_order reverse_order old_ab new_bc
           (find_differences elements_order old_ab new_bc)
           elements_order_perm reverse_order_perm).
Defined.

End ConfigDataMore.

(* ===================================================================== *)
(** ** xml_data.py: further properties of the tree, the builder and the
       parser *)
(* ===================================================================== *)

Module XmlDataMoreProps.
Import XmlData XmlDataProps XmlDataMore.

(** *** Children are appended *)

(** X8.  [add] appends: after a sequence of calls the children are the
    children the node had followed by the added ones in the order of the
    calls, name and content unchanged.  The node that
    [_build_component_obj] returns is the fresh node [XMLComposite(c)]
    after one [add] per parameter, in the order of the parameters. *)
Theorem add_appends_in_call_order :
  (∀ node kids,
     foldl add node kids
     = mkXMLComposite (name node) (attribute_value node)
         (children node ++ kids))
  ∧ ∀ depth self_data c t,
      _build_component_obj depth self_data c = Ok t →
      ∃ depth' item kids,
        depth = S depth' ∧ dict_get c self_data = Some item
        ∧ Forall2 (fun p kid => build_child depth' self_data p = Ok kid)
                  (parameters item) kids
        ∧ t = foldl add (mkXMLComposite c None []) kids.
Proof.
  assert (Hfold : ∀ node kids,
    foldl add node kids
    = mkXMLComposite (name node) (attribute_value node)
        (children node ++ kids)).
  { intros node kids. revert node.
    induction kids as [|kid kids IH]; intros [n av ch]; simpl.
    - by rewrite app_nil_r.
    - rewrite IH. unfold add. simpl. by rewrite <- app_assoc. }
  split; [exact Hfold|].
  intros depth self_data c t (depth' & item & kids & -> & Hc & Hkids & ->)
    %build_component_Ok.
  exists depth', item, kids. split_and!; [done..|].
  by rewrite Hfold.
Qed.

Lemma add_appends_in_call_order_witness :
  _build_component_obj 1 (data_of car_twice) (Some "Car")
  = Ok (mkXMLComposite (Some "Car") None [speed_leaf])
  ∧ ∃ depth' item kids,
      1%nat = S depth'
      ∧ dict_get (Some "Car") (data_of car_twice) = Some item
      ∧ Forall2 (fun p kid => build_child depth' (data_of car_twice) p = Ok kid)
                (parameters item) kids
      ∧ mkXMLComposite (Some "Car") None [speed_leaf]
        = foldl add (mkXMLComposite (Some "Car") None []) kids.
Proof.
  assert (H : _build_component_obj 1 (data_of car_twice) (Some "Car")
              = Ok (mkXMLComposite (Some "Car") None [speed_leaf])).
  { reflexivity. }
  split; [exact H|].
  destruct add_appends_in_call_order as [_ Hbuild].
  exact (Hbuild _ _ _ _ H).
Defined.

(** *** The number of lines *)

Lemma foldr_add_fmap {A} (f : A → nat) (l : list A) :
  foldr (fun x n => f x + n)%nat 0%nat l = sum_list (f <$> l).
Proof. induction l as [|x l IH]; simpl; [done|]. by rewrite IH. Qed.

Lemma length_concat_fmap {A B} (f : A → list B) (l : list A) :
  length (concat (map f l)) = sum_list ((fun x => length (f x)) <$> l).
Proof.
  induction l as [|x l IH]; simpl; [done|]. by rewrite length_app, IH.
Qed.

Lemma length_bind_fmap {A B} (f : A → list B) (l : list A) :
  length (l ≫= f) = sum_list ((fun x => length (f x)) <$> l).
Proof.
  induction l as [|x l IH]; [done|].
  rewrite bind_cons, length_app, IH. done.
Qed.

Lemma to_xml_lines_count t : ∀ indent,
  (length (to_xml_lines t indent) + length (leaf_tags t) = 2 * tree_nodes t)%nat.
Proof.
  induction t as [n av ch IH] using XMLComposite_tree_ind. intros indent.
  destruct ch as [|k ks].
  - destruct av as [[|c v]|]; reflexivity.
  - cbn [to_xml_lines leaf_tags tree_nodes].
    rewrite foldr_add_fmap. rewrite !length_app, length_concat_fmap.
    rewrite length_bind_fmap. cbn [length].
    assert (Hsum : (sum_list ((fun x => length (to_xml_lines x (indent + 1)))
                                <$> (k :: ks))
                    + sum_list ((fun x => length (leaf_tags x)) <$> (k :: ks))
                    = 2 * sum_list (tree_nodes <$> (k :: ks)))%nat).
    { induction IH as [|x l Hx _ IHl]; [done|].
      rewrite !fmap_cons. specialize (Hx (indent + 1)%Z).
      unfold sum_list in *. cbn [sum_list_with]. unfold id in *. lia. }
    lia.
Qed.


(** *** The mapping of [XMLBuilder.__init__] with repeated class names *)

Lemma dict_get_set {K V} `{EqDecision K} (d : list (K * V)) k k' v :
  dict_get k (dict_set k' v d)
  = if decide (k = k') then Some v else dict_get k d.
Proof.
  induction d as [|[k0 v0] d IH]; cbn [dict_set dict_get].
  - destruct (decide (k = k')); done.
  - destruct (decide (k' = k0)) as [->|Hne]; cbn [dict_get].
    + destruct (decide (k = k0)); done.
    + destruct (decide (k = k0)) as [->|?].
      * by rewrite decide_False by done.
      * apply IH.
Qed.

Lemma dict_get_foldl_set (l : list class_data)
    (d : list (option string * class_data)) k :
  dict_get k (foldl (fun d item => dict_set (class item) item d) d l)
  = match last (filter (fun item => class item = k) l) with
    | Some item => Some item
    | None => dict_get k d
    end.
Proof.
  revert d. induction l as [|c l IH] using rev_ind; intros d; [done|].
  rewrite foldl_app, filter_app. cbn [foldl]. rewrite dict_get_set.
  destruct (decide (k = class c)) as [->|Hne].
  - rewrite filter_cons_True by done. by rewrite filter_nil, last_snoc.
  - rewrite filter_cons_False by done. by rewrite filter_nil, app_nil_r, IH.
Qed.

(** X10.  [{item['class']: item for item in json_data}]: a class name
    that occurs in several records keeps the place of its first record and
    the content of its last one. *)
Theorem data_of_first_place_last_record json_data :
  dict_keys (data_of json_data) = first_seen [] (class <$> json_data)
  ∧ ∀ k, dict_get k (data_of json_data)
         = last (filter (fun item => class item = k) json_data).
Proof.
  split.
  - unfold data_of. by rewrite dict_keys_foldl_set.
  - intros k. unfold data_of. rewrite dict_get_foldl_set.
    by destruct (last _).
Qed.

(** *** From the parser to the builder *)

Lemma class_resolved_class c aggs item :
  class (resolved_class c aggs item) = class item.
Proof. reflexivity. Qed.

Lemma isRoot_resolved_class c aggs item :
  isRoot (resolved_class c aggs item) = isRoot item.
Proof. reflexivity. Qed.

Lemma fmap_keyed_fst (d : list (option string * class_data))
    (f : option string * class_data → class_data) :
  (∀ kv, class (f kv) = class kv.2) →
  Forall (fun kv => class kv.2 = kv.1) d →
  class <$> (f <$> d) = dict_keys d.
Proof.
  intros Hf Hd. rewrite <- list_fmap_compose. unfold dict_keys.
  apply Forall_fmap_ext. eapply Forall_impl; [exact Hd|].
  intros kv Hkv. simpl. by rewrite Hf.
Qed.

(** The records that [parse] returns have distinct class names. *)
Lemma parse_output_distinct path doc :
  NoDup (class <$> (parse (XMLParser_init path) doc).2).
Proof.
  rewrite parse_returns.
  rewrite (fmap_keyed_fst (data_of (parse_class <$> findall doc "Class"))
             (fun kv => resolved_class kv.1
                          (parse_aggregation <$> findall doc "Aggregation")
                          kv.2)
             (fun kv => eq_refl) (data_of_keyed _)).
  apply NoDup_dict_keys_data_of.
Qed.

Lemma data_of_distinct_entries json_data :
  NoDup (class <$> json_data) →
  data_of json_data = (fun c => (class c, c)) <$> json_data.
Proof.
  intros Hnd. unfold data_of. rewrite foldl_dict_set_distinct; [done..|].
  intros c _. apply not_elem_of_nil.
Qed.

(** X11.  The list that [parse] returns never names a class twice, also
    when the document declares one twice; so the mapping of the builder made
    from it holds the returned records one for one, in the returned order,
    and the root of the builder is the first returned record flagged as
    root. *)
Theorem builder_keeps_parser_output path doc :
  let json_data := (parse (XMLParser_init path) doc).2 in
  NoDup (class <$> json_data)
  ∧ data (XMLBuilder_init json_data) = (fun c => (class c, c)) <$> json_data
  ∧ root (XMLBuilder_init json_data) = find_root_loop json_data.
Proof.
  intros json_data.
  pose proof (parse_output_distinct path doc) as Hnd. fold json_data in Hnd.
  split_and!; [done| |].
  - cbn [data XMLBuilder_init]. by apply data_of_distinct_entries.
  - cbn [root XMLBuilder_init]. unfold _find_root.
    by rewrite data_of_distinct.
Qed.

(** *** Calling [parse] again *)

Lemma resolved_class_app c aggs1 aggs2 item :
  resolved_class c (aggs1 ++ aggs2) item
  = resolved_class c aggs2 (resolved_class c aggs1 item).
Proof.
  induction aggs2 as [|agg aggs2 IH] using rev_ind.
  - by rewrite app_nil_r, resolved_class_nil.
  - rewrite app_assoc, resolved_class_snoc, IH.
    by rewrite (resolved_class_snoc c aggs2).
Qed.

Lemma elem_of_first_seen {K} `{EqDecision K} (seen l : list K) x :
  x ∈ (seen ++ first_seen seen l)%list ↔ x ∈ seen ∨ x ∈ l.
Proof.
  revert seen. induction l as [|k l IH]; intros seen; cbn [first_seen].
  - rewrite app_nil_r, elem_of_nil. tauto.
  - destruct (decide (k ∈ seen)) as [Hin|Hnin].
    + rewrite IH, elem_of_cons. split; [tauto|].
      intros [?|[->|?]]; tauto.
    + change (k :: first_seen (seen ++ [k]) l)%list
        with ([k] ++ first_seen (seen ++ [k]) l)%list.
      rewrite app_assoc, IH, elem_of_app, list_elem_of_singleton, elem_of_cons.
      tauto.
Qed.

Lemma first_seen_all_seen {K} `{EqDecision K} (seen l : list K) :
  (∀ x, x ∈ l → x ∈ seen) → first_seen seen l = [].
Proof.
  induction l as [|k l IH]; intros Hall; [done|]. cbn [first_seen].
  rewrite decide_True by (apply Hall; by left).
  apply IH. intros x Hx. apply Hall. by right.
Qed.

Lemma dict_get_None {K V} `{EqDecision K} (d : list (K * V)) k :
  dict_get k d = None ↔ k ∉ dict_keys d.
Proof.
  unfold dict_keys. induction d as [|[k0 v0] d IH]; cbn [dict_get].
  - split; [intros _; apply not_elem_of_nil|done].
  - rewrite fmap_cons, not_elem_of_cons. cbn [fst].
    destruct (decide (k = k0)); [split; [done|tauto]|]. rewrite IH. tauto.
Qed.

(** Two mappings with the same keys in the same order and the same record
    under every key are the same mapping. *)
Lemma dict_ext {K V} `{EqDecision K} (d1 d2 : list (K * V)) :
  NoDup (dict_keys d1) → dict_keys d1 = dict_keys d2 →
  (∀ k, dict_get k d1 = dict_get k d2) → d1 = d2.
Proof.
  unfold dict_keys. revert d2.
  induction d1 as [|[k1 v1] d1 IH]; intros [|[k2 v2] d2]; try done.
  rewrite !fmap_cons. cbn [fst]. intros [Hk1 Hnd]%NoDup_cons [= <- Hkeys] Hget.
  pose proof (Hget k1) as Hv. cbn [dict_get] in Hv.
  rewrite !decide_True in Hv by done. injection Hv as <-.
  f_equal. apply IH; [done..|]. intros k.
  specialize (Hget k). cbn [dict_get] in Hget.
  destruct (decide (k = k1)) as [->|Hne]; [|done].
  transitivity (@None V); [|symmetry].
  - by apply dict_get_None.
  - apply dict_get_None. unfold dict_keys. by rewrite <- Hkeys.
Qed.

(** Declaring again the classes that a mapping was declared from resets
    each record to its declaration. *)
Lemma redeclare_resets (l : list class_data)
    (f : option string * class_data → class_data) :
  foldl (fun d item => dict_set (class item) item d)
        ((fun kv => (kv.1, f kv)) <$> data_of l) l
  = data_of l.
Proof.
  assert (Hkeys : dict_keys ((fun kv => (kv.1, f kv)) <$> data_of l)
                  = dict_keys (data_of l)).
  { unfold dict_keys. rewrite <- list_fmap_compose. done. }
  assert (Hseen : dict_keys (data_of l) = first_seen [] (class <$> l)).
  { unfold data_of. by rewrite dict_keys_foldl_set. }
  apply dict_ext.
  - rewrite dict_keys_foldl_set, Hkeys.
    apply NoDup_first_seen, NoDup_dict_keys_data_of.
  - rewrite dict_keys_foldl_set, Hkeys.
    rewrite first_seen_all_seen; [by rewrite app_nil_r|].
    intros x Hx. rewrite Hseen.
    apply (elem_of_first_seen [] (class <$> l) x). by right.
  - intros k. unfold data_of at 2. rewrite !dict_get_foldl_set.
    destruct (last (filter (fun item => class item = k) l)) as [item|] eqn:Hl;
      [done|].
    cbn [dict_get]. apply dict_get_None. rewrite Hkeys, Hseen.
    intros Hk. apply (elem_of_first_seen [] (class <$> l) k) in Hk.
    destruct Hk as [Hk|Hk]; [by apply elem_of_nil in Hk|].
    apply list_elem_of_fmap in Hk as (item & -> & Hitem).
    apply last_None in Hl.
    assert (Hin : item ∈ filter (fun item' => class item' = class item) l).
    { by apply list_elem_of_filter. }
    rewrite Hl in Hin. by apply elem_of_nil in Hin.
Qed.

(** X12.  A second call of [parse] on the same parser declares the classes
    afresh but keeps the aggregations of the first call and reads them
    again: every record of the second result is the record of the first
    result resolved once more, so it has each class-typed parameter of its
    class twice. *)
Theorem parse_again_resolves_twice path doc :
  let aggs := declared_aggregations doc in
  let first := parse (XMLParser_init path) doc in
  _aggregations first.1 = aggs
  ∧ _aggregations (parse first.1 doc).1 = (aggs ++ aggs)%list
  ∧ (parse first.1 doc).2
    = (fun item => resolved_class (class item) aggs item) <$> first.2.
Proof.
  intros aggs first. split_and!; [done..|].
  unfold first at 2. rewrite parse_returns.
  fold (declared_aggregations doc). fold aggs.
  fold (declared_classes doc).
  set (decls := declared_classes doc).
  assert (Hfirst : _classes first.1
                   = (fun kv => (kv.1, resolved_class kv.1 aggs kv.2))
                       <$> data_of decls).
  { unfold first, parse. cbn [fst _classes _aggregations XMLParser_init app].
    rewrite resolve_relationships_fmap.
    - unfold data_of, decls, declared_classes. by rewrite foldl_fmap.
    - rewrite <- (foldl_fmap (fun d item => dict_set (class item) item d)
                             [] (findall doc "Class") parse_class).
      apply NoDup_dict_keys_data_of. }
  unfold parse at 1. cbn [snd].
  change (_aggregations first.1) with aggs.
  fold (declared_aggregations doc). fold aggs.
  rewrite <- (foldl_fmap (fun d item => dict_set (class item) item d)
                         (_classes first.1) (findall doc "Class") parse_class).
  fold (declared_classes doc). fold decls.
  rewrite Hfirst.
  rewrite (redeclare_resets decls (fun kv => resolved_class kv.1 aggs kv.2)).
  rewrite resolve_relationships_fmap by apply NoDup_dict_keys_data_of.
  unfold dict_values. rewrite <- !list_fmap_compose.
  apply Forall_fmap_ext. eapply Forall_impl; [apply data_of_keyed|].
  intros [k item] Hk. simpl in *.
  by rewrite resolved_class_app, Hk.
Qed.

(** *** What a successful build says about the model *)

Lemma build_child_class d self_data p kid :
  is_class_param p → build_child d self_data p = Ok kid →
  _build_component_obj d self_data (param_name p) = Ok kid.
Proof.
  unfold build_child, is_class_param. intros Hcls.
  by rewrite decide_True by done.
Qed.

(** The trees of the classes that a class refers to are children of its
    tree. *)
Lemma build_ref_child d self_data c item kids q :
  dict_get c self_data = Some item →
  Forall2 (fun p kid => build_child d self_data p = Ok kid)
          (parameters item) kids →
  q ∈ class_refs item →
  ∃ kid, kid ∈ kids ∧ _build_component_obj d self_data q = Ok kid.
Proof.
  intros Hc Hkids (p & Hp & Hcls & ->)%elem_of_class_refs.
  destruct (Forall2_elem_l _ _ _ _ Hkids Hp) as (kid & Hkid & Hbuild).
  exists kid. split; [done|]. by apply build_child_class.
Qed.

(** X13.  [_build_component_obj] returns only when every class that it
    reaches is declared: if it returns for a class, each class-typed
    parameter of each class visited from there names a key of the mapping.
    A reference to an undeclared class anywhere below the root therefore
    makes the build raise. *)
Theorem build_returns_only_if_references_declared depth self_data c t :
  _build_component_obj depth self_data c = Ok t →
  ∀ v item q, v ∈ visits depth self_data c →
              dict_get v self_data = Some item →
              q ∈ class_refs item →
              is_Some (dict_get q self_data).
Proof.
  revert c t. induction depth as [|d IH]; intros c t; [done|].
  intros (d' & item & kids & [= <-] & Hc & Hkids & ->)%build_component_Ok.
  intros v item' q. rewrite visits_S, Hc.
  intros [->|(r & Hv & Hr)%list_elem_of_bind]%elem_of_cons Hitem' Hq.
  - rewrite Hc in Hitem'. injection Hitem' as <-.
    destruct (build_ref_child _ _ _ _ _ _ Hc Hkids Hq) as (kid & _ & Hkid).
    apply build_component_Ok in Hkid as (? & item2 & ? & _ & Hq2 & _).
    by exists item2.
  - destruct (build_ref_child _ _ _ _ _ _ Hc Hkids Hr) as (kid & _ & Hkid).
    by apply (IH r kid Hkid v item' q).
Qed.

Lemma build_returns_only_if_references_declared_witness :
  is_Some (dict_get (Some "Engine") (data_of car_json)).
Proof.
  apply (build_returns_only_if_references_declared 2 (data_of car_json)
           (Some "Car")
           (mkXMLComposite (Some "Car") None
              [mkXMLComposite (Some "speed") (Some "int") [];
               mkXMLComposite (Some "Engine") None []])
           eq_refl (Some "Car")
           (ClassData (Some "Car") "" true
              [Param (Some "speed") (Some "int");
               Param (Some "Engine") (Some "class")] None None)
           (Some "Engine")).
  - compute_done.
  - reflexivity.
  - compute_done.
Defined.

(** *** A cycle of class references *)

Lemma tree_nodes_child n av kids kid :
  kid ∈ kids → (tree_nodes kid < tree_nodes (mkXMLComposite n av kids))%nat.
Proof.
  cbn [tree_nodes]. induction kids as [|k ks IH]; [by intros ?%elem_of_nil|].
  intros [->|Hin]%elem_of_cons; cbn [foldr]; [lia|].
  specialize (IH Hin). lia.
Qed.

(** More fuel visits more. *)
Lemma visits_mono self_data n m c y :
  (n ≤ m)%nat → y ∈ visits n self_data c → y ∈ visits m self_data c.
Proof.
  revert m c y. induction n as [|n IH]; intros m c y Hle;
    [by intros ?%elem_of_nil|].
  destruct m as [|m]; [lia|]. rewrite !visits_S.
  destruct (dict_get c self_data) as [item|]; [|done].
  rewrite !elem_of_cons, !list_elem_of_bind.
  intros [->|(r & Hy & Hr)]; [by left|]. right. exists r.
  split; [|done]. apply IH; [lia|done].
Qed.

(** Every class visited from a class whose tree is built has a tree too,
    with no more nodes; a class visited below has a tree with fewer. *)
Lemma build_visits_below d self_data c item kids y :
  (∀ r kid, _build_component_obj d self_data r = Ok kid →
            y ∈ visits d self_data r →
            ∃ ty, _build_component_obj d self_data y = Ok ty
                  ∧ (tree_nodes ty ≤ tree_nodes kid)%nat) →
  dict_get c self_data = Some item →
  Forall2 (fun p kid => build_child d self_data p = Ok kid)
          (parameters item) kids →
  y ∈ class_refs item ≫= visits d self_data →
  ∃ ty, _build_component_obj d self_data y = Ok ty
        ∧ (tree_nodes ty < tree_nodes (mkXMLComposite c None kids))%nat.
Proof.
  intros IH Hc Hkids (r & Hy & Hr)%list_elem_of_bind.
  destruct (build_ref_child _ _ _ _ _ _ Hc Hkids Hr) as (kid & Hin & Hkid).
  destruct (IH r kid Hkid Hy) as (ty & Hty & Hle).
  exists ty. split; [done|].
  pose proof (tree_nodes_child c None kids kid Hin). lia.
Qed.

Lemma build_visits d self_data : ∀ c t y,
  _build_component_obj d self_data c = Ok t →
  y ∈ visits d self_data c →
  ∃ ty, _build_component_obj d self_data y = Ok ty
        ∧ (tree_nodes ty ≤ tree_nodes t)%nat.
Proof.
  induction d as [|d IH]; intros c t y; [done|].
  intros Hb. pose proof Hb as Hb'. revert Hb'.
  intros (d' & item & kids & [= <-] & Hc & Hkids & ->)%build_component_Ok.
  rewrite visits_S, Hc. intros [->|Hy]%elem_of_cons.
  { exists (mkXMLComposite c None kids). split; [done|lia]. }
  destruct (build_visits_below d self_data c item kids y) as (ty & Hty & Hlt);
    [|done..|].
  { intros r kid. apply IH. }
  exists ty. split; [|lia].
  apply (build_component_mono _ _ _ _ Hty). lia.
Qed.

(** X14.  A class that is reached again from one of its own class-typed
    parameters is never built: whatever recursion depth is allowed,
    [_build_component_obj] does not return for it. *)
Theorem build_cycle_never_returns self_data c item fuel :
  dict_get c self_data = Some item →
  c ∈ class_refs item ≫= visits fuel self_data →
  ∀ depth t, _build_component_obj depth self_data c ≠ Ok t.
Proof.
  intros Hc Hcycle depth t Hb.
  set (m := (depth `max` fuel)%nat).
  assert (Hm : _build_component_obj (S m) self_data c = Ok t).
  { apply (build_component_mono _ _ _ _ Hb). lia. }
  pose proof Hm as Hm'.
  apply build_component_Ok in Hm'
    as (d' & item' & kids & [= <-] & Hc' & Hkids & ->).
  rewrite Hc in Hc'. injection Hc' as <-.
  destruct (build_visits_below m self_data c item kids c) as (ty & Hty & Hlt);
    [|done..| |].
  - intros r kid. apply build_visits.
  - apply list_elem_of_bind in Hcycle as (r & Hy & Hr).
    apply list_elem_of_bind. exists r. split; [|done].
    apply (visits_mono _ fuel); [lia|done].
  - assert (Heq : _build_component_obj (S m) self_data c = Ok ty).
    { apply (build_component_mono _ _ _ _ Hty). lia. }
    rewrite Hm in Heq. injection Heq as <-. lia.
Qed.

Lemma build_cycle_never_returns_witness :
  Some "Loop"
    ∈ [Some "Loop"]
        ≫= visits 1 (data_of (parse (XMLParser_init "input.xml") cycle_doc).2)
  ∧ ∀ depth t,
      _build_component_obj depth
        (data_of (parse (XMLParser_init "input.xml") cycle_doc).2)
        (Some "Loop")
      ≠ Ok t.
Proof.
  assert (Hcycle : Some "Loop"
    ∈ [Some "Loop"]
        ≫= visits 1 (data_of (parse (XMLParser_init "input.xml") cycle_doc).2)).
  { compute_done. }
  split; [exact Hcycle|].
  apply (build_cycle_never_returns
           (data_of (parse (XMLParser_init "input.xml") cycle_doc).2)
           (Some "Loop")
           (ClassData (Some "Loop") "" true
              [Param (Some "Loop") (Some "class")] (Some "1") (Some "1"))
           1%nat); [reflexivity|exact Hcycle].
Defined.

(** *** From a document to its text *)

Lemma render_model_eq depth doc :
  render_model depth doc
  = build depth (XMLBuilder_init (parse (XMLParser_init "input.xml") doc).2).
Proof. unfold render_model. by destruct (parse _ doc). Qed.

Lemma find_root_loop_fmap (g : class_data → class_data) l :
  (∀ x, isRoot (g x) = isRoot x) →
  find_root_loop (g <$> l) = g <$> find_root_loop l.
Proof.
  intros Hg. induction l as [|x l IH]; [done|].
  rewrite fmap_cons. cbn [find_root_loop]. rewrite Hg.
  by destruct (isRoot x).
Qed.

Lemma parse_distinct path doc :
  NoDup (class <$> declared_classes doc) →
  (parse (XMLParser_init path) doc).2
  = (fun decl => resolved_class (class decl) (declared_aggregations doc) decl)
      <$> declared_classes doc.
Proof.
  intros Hnd. rewrite parse_returns.
  rewrite data_of_distinct_entries by done.
  by rewrite <- list_fmap_compose.
Qed.

(** The class-typed parameters of a resolved declaration come from the
    aggregations into its class. *)
Lemma resolved_class_param decls aggs decl p :
  attributes_primitive decls → decl ∈ decls →
  p ∈ parameters (resolved_class (class decl) aggs decl) →
  is_class_param p →
  ∃ agg, agg ∈ aggs ∧ target agg = class decl ∧ param_name p = source agg.
Proof.
  intros Hprim Hdecl Hp Hcls. cbn [parameters resolved_class] in Hp.
  apply elem_of_app in Hp as [Hp|Hp].
  - unfold attributes_primitive in Hprim.
    rewrite Forall_forall in Hprim. specialize (Hprim decl Hdecl).
    rewrite Forall_forall in Hprim. by destruct (Hprim p Hp).
  - apply list_elem_of_fmap in Hp as (agg & -> & [Ht Hagg]%list_elem_of_filter).
    by exists agg.
Qed.

(** X15.  A document renders: when its classes have distinct names, no
    attribute has the type ["class"], every aggregation into a declared
    class comes from a declared class of smaller rank, and some class is
    flagged as root, then parsing and building return a text, the same for
    every recursion depth above the rank of the first flagged class. *)
Theorem render_model_returns doc rank :
  NoDup (class <$> declared_classes doc) →
  attributes_primitive (declared_classes doc) →
  aggregations_ranked (declared_classes doc) (declared_aggregations doc) rank →
  Exists (fun decl => isRoot decl = true) (declared_classes doc) →
  ∃ r text,
    find_root_loop (declared_classes doc) = Some r
    ∧ ∀ depth, (rank (class r) < depth)%nat →
               render_model depth doc = Ok text.
Proof.
  intros Hnd Hprim Haggs Hroot.
  set (decls := declared_classes doc) in *.
  set (aggs := declared_aggregations doc) in *.
  set (g := fun decl => resolved_class (class decl) aggs decl).
  set (json_data := (parse (XMLParser_init "input.xml") doc).2).
  assert (Hout : json_data = g <$> decls) by by apply parse_distinct.
  assert (Hnames : class <$> json_data = class <$> decls).
  { rewrite Hout, <- list_fmap_compose. done. }
  assert (Hdata : data_of json_data = (fun c => (class c, c)) <$> json_data).
  { apply data_of_distinct_entries. by rewrite Hnames. }
  assert (Hkeys : dict_keys (data_of json_data) = class <$> decls).
  { rewrite Hdata. unfold dict_keys. by rewrite <- list_fmap_compose. }
  assert (Hrefs : ∀ decl p, decl ∈ decls → p ∈ parameters (g decl) →
                            is_class_param p →
                            is_Some (dict_get (param_name p) (data_of json_data))
                            ∧ (rank (param_name p) < rank (class decl))%nat).
  { intros decl p Hdecl Hp Hcls.
    destruct (resolved_class_param decls aggs decl p Hprim Hdecl Hp Hcls)
      as (agg & Hagg & Ht & ->).
    unfold aggregations_ranked in Haggs. rewrite Forall_forall in Haggs.
    destruct (Haggs agg Hagg) as [Hsrc Hlt].
    { rewrite Ht. apply list_elem_of_fmap. by exists decl. }
    split; [|by rewrite <- Ht].
    apply not_eq_None_Some. rewrite dict_get_None, Hkeys. tauto. }
  assert (Hentry : ∀ kv, kv ∈ data_of json_data →
                         ∃ decl, decl ∈ decls ∧ kv = (class decl, g decl)).
  { intros kv. rewrite Hdata, Hout, <- list_fmap_compose.
    intros (decl & -> & Hdecl)%list_elem_of_fmap. by exists decl. }
  assert (Hclosed : references_closed (data_of json_data)).
  { unfold references_closed. apply Forall_forall.
    intros kv (decl & Hdecl & ->)%Hentry. cbn [snd]. apply Forall_forall.
    intros p Hp Hcls. by apply (Hrefs decl p). }
  assert (Hranked : ranked (data_of json_data) rank).
  { unfold ranked. apply Forall_forall.
    intros kv (decl & Hdecl & ->)%Hentry. cbn [snd fst]. apply Forall_forall.
    intros p Hp Hcls. by apply (Hrefs decl p). }
  destruct (find_root_loop decls) as [r|] eqn:Hr.
  2:{ apply find_root_loop_None in Hr. apply Exists_exists in Hroot
        as (decl & Hdecl & Hflag).
      rewrite Forall_forall in Hr. rewrite (Hr decl Hdecl) in Hflag. done. }
  assert (Hbuilder : root (XMLBuilder_init json_data) = Some (g r)).
  { cbn [root XMLBuilder_init]. unfold _find_root.
    rewrite data_of_distinct by by rewrite Hnames.
    rewrite Hout, find_root_loop_fmap by done. by rewrite Hr. }
  destruct (root_in_data json_data (g r) Hbuilder) as [Hget _].
  destruct (build_component_total _ rank Hclosed Hranked
              (S (rank (class r))) (class r)) as [t Ht]; [lia|by eexists|].
  exists r, (to_xml t 0). split; [done|]. intros depth Hdepth.
  rewrite render_model_eq. fold json_data. unfold build. rewrite Hbuilder.
  cbn [data XMLBuilder_init]. change (class (g r)) with (class r).
  rewrite (build_component_mono _ _ _ _ Ht depth) by lia. done.
Qed.

Lemma render_model_returns_witness :
  ∃ r text,
    find_root_loop (declared_classes car_doc) = Some r
    ∧ ∀ depth, (car_rank (class r) < depth)%nat →
               render_model depth car_doc = Ok text.
Proof.
  apply (render_model_returns car_doc car_rank); compute_done.
Defined.

(** *** The fields of a multiplicity *)

Lemma prefix_dot_cons c x :
  String.prefix "." (String c x) = (if ascii_dec "." c then true else false).
Proof.
  change (String.prefix "." (String c x))
    with (if ascii_dec "." c then String.prefix "" x else false).
  destruct (ascii_dec "." c); [apply prefix_nil|done].
Qed.

(** A field that starts with a dot starts where the text starts. *)
Lemma first_field_dot s field fields :
  split_from ".." 0 s = field :: fields →
  String.prefix "." s = false → String.prefix "." field = false.
Proof.
  destruct s as [|c s]; [by intros [= <- _]|]. cbn [split_from].
  destruct (String.prefix ".." (String c s)); [by intros [= <- _]|].
  intros Hf Hp.
  assert (Hc : ∀ x, String.prefix "." (String c x) = false).
  { intros x. by rewrite prefix_dot_cons in *. }
  destruct (split_from ".." 0 s); injection Hf as <- _; apply Hc.
Qed.

Lemma split_fields_sep_free s :
  Forall (fun field => contains ".." field = false) (split_from ".." 0 s)
  ∧ Forall (fun field => contains ".." field = false) (split_from ".." 1 s).
Proof.
  induction s as [|c s [IH0 IH1]]; [by split; repeat constructor|].
  split; [|exact IH0]. cbn [split_from].
  change (String.length ".." - 1)%nat with 1%nat.
  destruct (String.prefix ".." (String c s)) eqn:Hp.
  { by constructor. }
  destruct (split_from ".." 0 s) as [|field fields] eqn:Hs.
  - repeat constructor. rewrite contains_cons, prefix_sep_cons.
    by destruct (ascii_dec "." c).
  - apply Forall_cons in IH0 as [Hfield Hfields]. constructor; [|done].
    rewrite contains_cons, Hfield, orb_false_r.
    rewrite prefix_sep_cons in *. destruct (ascii_dec "." c); [|done].
    by apply (first_field_dot s field fields).
Qed.

(** X16.  The [min] and the [max] that the parser stores for an
    aggregation never contain the separator [..], whatever the
    [sourceMultiplicity] of the element is. *)
Theorem multiplicity_fields_have_no_separator elem :
  contains ".." (agg_min (parse_aggregation elem)) = false
  ∧ contains ".." (agg_max (parse_aggregation elem)) = false.
Proof.
  cbn [parse_aggregation agg_min agg_max].
  set (m := get_or elem "sourceMultiplicity" "").
  unfold multiplicity_min, multiplicity_max.
  destruct (contains ".." m) eqn:Hm; [|done].
  destruct (split_fields_sep_free m) as [Hfields _].
  fold (split m "..") in Hfields. rewrite Forall_lookup in Hfields.
  split.
  - destruct (split m ".." !! 0%nat) as [field|] eqn:Hf; [|done].
    apply (Hfields _ _ Hf).
  - destruct (split m ".." !! 1%nat) as [field|] eqn:Hf; [|done].
    apply (Hfields _ _ Hf).
Qed.

(** *** The root flag *)

Lemma lower_ascii_t c : lower_ascii c = "t"%char → c = "t"%char ∨ c = "T"%char.
Proof.
  destruct c as [[] [] [] [] [] [] [] []]; vm_compute; intros H;
    first [discriminate H | by left | by right].
Qed.
Lemma lower_ascii_r c : lower_ascii c = "r"%char → c = "r"%char ∨ c = "R"%char.
Proof.
  destruct c as [[] [] [] [] [] [] [] []]; vm_compute; intros H;
    first [discriminate H | by left | by right].
Qed.
Lemma lower_ascii_u c : lower_ascii c = "u"%char → c = "u"%char ∨ c = "U"%char.
Proof.
  destruct c as [[] [] [] [] [] [] [] []]; vm_compute; intros H;
    first [discriminate H | by left | by right].
Qed.
Lemma lower_ascii_e c : lower_ascii c = "e"%char → c = "e"%char ∨ c = "E"%char.
Proof.
  destruct c as [[] [] [] [] [] [] [] []]; vm_compute; intros H;
    first [discriminate H | by left | by right].
Qed.

(** X17.  A class is flagged as root exactly when its [isRoot] attribute
    is present and spells [true] in any mix of upper and lower case: four
    characters, one of [t T], one of [r R], one of [u U], one of [e E].
    Without the attribute the class is not flagged. *)
Theorem isRoot_iff_true_in_any_case elem :
  isRoot (parse_class elem) = true ↔
  ∃ a b c d,
    get elem "isRoot" = Some (String a (String b (String c (String d ""))))
    ∧ (a = "t" ∨ a = "T")%char ∧ (b = "r" ∨ b = "R")%char
    ∧ (c = "u" ∨ c = "U")%char ∧ (d = "e" ∨ d = "E")%char.
Proof.
  cbn [isRoot parse_class]. unfold get_or. rewrite String.eqb_eq.
  destruct (get elem "isRoot") as [v|]; cbn [default].
  2:{ split; [done|]. by intros (a & b & c & d & ? & _). }
  split.
  - destruct v as [|a [|b [|c [|d [|x v]]]]]; try done.
    cbn [lower]. intros [= Ha%lower_ascii_t Hb%lower_ascii_r
                           Hc%lower_ascii_u Hd%lower_ascii_e].
    by exists a, b, c, d.
  - intros (a & b & c & d & [= ->] & Ha & Hb & Hc & Hd).
    destruct Ha as [-> | ->], Hb as [-> | ->], Hc as [-> | ->],
      Hd as [-> | ->]; reflexivity.
Qed.

(** *** How a build fails *)

Lemma mapM_Raise {A B} (f : A → result B) l e :
  mapM f l = Raise e → ∃ x, x ∈ l ∧ f x = Raise e.
Proof.
  induction l as [|x l IH]; [done|]. cbn [mapM].
  destruct (f x) as [y|e'] eqn:Hx; simpl.
  - destruct (mapM f l) as [ys|e'] eqn:Hl; simpl; [done|].
    intros [= ->]. destruct (IH eq_refl) as (x' & Hin & Hx').
    exists x'. split; [by right|done].
  - intros [= ->]. exists x. split; [by left|done].
Qed.

(** X21.  When every class-typed parameter of the mapping names a key of
    the mapping, building a class of the mapping can fail in one way only:
    by the recursion limit.  No [KeyError] is raised below a declared
    class, at any recursion depth. *)
Theorem build_closed_fails_only_by_recursion self_data c depth :
  references_closed self_data → is_Some (dict_get c self_data) →
  (∃ t, _build_component_obj depth self_data c = Ok t)
  ∨ _build_component_obj depth self_data c = Raise RecursionError.
Proof.
  intros Hclosed Hc.
  assert (Honly : ∀ depth c e, is_Some (dict_get c self_data) →
    _build_component_obj depth self_data c = Raise e → e = RecursionError).
  { clear c depth Hc. induction depth as [|d IH]; intros c e [item Hc].
    { by intros [= <-]. }
    rewrite build_component_S, Hc.
    destruct (mapM _ _) as [kids|e'] eqn:Hkids; simpl; [done|].
    intros [= ->]. apply mapM_Raise in Hkids as (p & Hp & Hfail).
    unfold build_child in Hfail.
    destruct (decide (param_type p = Some "class")) as [Hcls|]; [|done].
    apply (IH (param_name p)); [|done].
    by apply (references_closed_get self_data c item p). }
  destruct (_build_component_obj depth self_data c) as [t|e] eqn:Hb.
  - left. by exists t.
  - right. by rewrite (Honly depth c e Hc Hb).
Qed.

Lemma build_closed_fails_only_by_recursion_witness :
  (∃ t, _build_component_obj 1 (data_of car_json) (Some "Car") = Ok t)
  ∨ _build_component_obj 1 (data_of car_json) (Some "Car")
    = Raise RecursionError.
Proof.
  apply (build_closed_fails_only_by_recursion (data_of car_json)
           (Some "Car") 1).
  - compute_done.
  - by eexists.
Defined.

(** *** The trees that are built *)

(** X22.  [_build_component_obj] returns, at some recursion depth, exactly
    the tree of the class: a node named after the class with one child per
    parameter, in order, the child of a class-typed parameter being the
    tree of the class it names and the child of any other parameter a leaf
    with the name and the type of the parameter.  A class has at most one
    tree. *)
Theorem build_component_iff_tree_of self_data c :
  (∀ t, (∃ depth, _build_component_obj depth self_data c = Ok t)
        ↔ tree_of self_data c t)
  ∧ ∀ t t', tree_of self_data c t → tree_of self_data c t' → t = t'.
Proof.
  assert (Hiff : ∀ c t, (∃ depth, _build_component_obj depth self_data c = Ok t)
                        ↔ tree_of self_data c t).
  { clear c. intros c t.
    split; [intros [depth Hb]; by apply (build_component_tree_of depth)|].
    revert c. induction t as [n av kids IH] using XMLComposite_tree_ind.
    intros c. inversion 1 as [c' item kids' Hc Hkids]; subst.
    assert (Hdepth : ∃ d,
      Forall2 (fun p kid => build_child d self_data p = Ok kid)
              (parameters item) kids).
    { clear Hc H. induction Hkids as [|p kid ps kids Hkid Hkids IHkids].
      - exists 0%nat. constructor.
      - apply Forall_cons in IH as [IHkid IH].
        destruct (IHkids IH) as [d1 Hd1].
        assert (Hd2 : ∃ d2, build_child d2 self_data p = Ok kid).
        { unfold build_child. inversion Hkid as [? ? Hcls Htree|? Hcls]; subst.
          - destruct (IHkid _ Htree) as [d2 Hd2]. exists d2.
            by rewrite decide_True by done.
          - exists 0%nat. by rewrite decide_False by done. }
        destruct Hd2 as [d2 Hd2]. exists (d1 `max` d2)%nat. constructor.
        + unfold build_child in *.
          destruct (decide (param_type p = Some "class")); [|done].
          apply (build_component_mono _ _ _ _ Hd2). lia.
        + eapply Forall2_impl; [exact Hd1|]. intros p' kid'.
          unfold build_child.
          destruct (decide (param_type p' = Some "class")); [|done].
          intros Hb. apply (build_component_mono _ _ _ _ Hb). lia. }
    destruct Hdepth as [d Hd]. exists (S d).
    apply build_component_Ok. by exists d, item, kids. }
  split; [apply Hiff|].
  intros t t' [d Hd]%Hiff [d' Hd']%Hiff.
  pose proof (build_component_mono _ _ _ _ Hd (d `max` d')%nat
                (Nat.le_max_l _ _)) as H1.
  pose proof (build_component_mono _ _ _ _ Hd' (d `max` d')%nat
                (Nat.le_max_r _ _)) as H2.
  rewrite H1 in H2. by injection H2.
Qed.

End XmlDataMoreProps.

(* ===================================================================== *)
(** ** file.py: the file type, writing and reading *)
(* ===================================================================== *)

Module FileWorkerProps.
Import XmlData XmlDataProps FileWorker.

(** *** Splitting at a one-character separator *)

Lemma prefix_char_cons a c x :
  String.prefix (String a "") (String c x) = bool_decide (a = c).
Proof.
  change (String.prefix (String a "") (String c x))
    with (if ascii_dec a c then String.prefix "" x else false).
  rewrite prefix_nil. destruct (ascii_dec a c) as [Heq|Hne].
  - by rewrite bool_decide_eq_true_2.
  - by rewrite bool_decide_eq_false_2.
Qed.

Lemma split_char_cons a c s :
  split (String c s) (String a "")
  = if bool_decide (a = c) then "" :: split s (String a "")
    else match split s (String a "") with
         | field :: fields => String c field :: fields
         | [] => [String c ""]
         end.
Proof.
  unfold split. cbn [split_from]. rewrite prefix_char_cons.
  by destruct (bool_decide (a = c)).
Qed.

Lemma split_nonempty s sep : split s sep ≠ [].
Proof.
  unfold split. generalize 0%nat. induction s as [|c s IH]; intros k; [done|].
  cbn [split_from]. destruct k; [|apply IH].
  destruct (String.prefix sep (String c s)); [done|].
  by destruct (split_from sep 0 s).
Qed.

(** Joining the fields with the separator gives the text back. *)
Lemma join_split_char a s : join (String a "") (split s (String a "")) = s.
Proof.
  induction s as [|c s IH]; [done|]. rewrite split_char_cons.
  pose proof (split_nonempty s (String a "")) as Hne.
  destruct (split s (String a "")) as [|field fields]; [done|].
  destruct (bool_decide (a = c)) eqn:Hc.
  - apply bool_decide_eq_true in Hc as ->.
    rewrite join_cons_cons, IH. by rewrite append_nil_l.
  - destruct fields as [|field' fields].
    + unfold join in *. cbn [String.concat] in *. by rewrite IH.
    + rewrite join_cons_cons in *. by rewrite append_cons, IH.
Qed.

(** The fields of [base + sep + rest] end with the fields of [rest]. *)
Lemma split_char_app a base rest :
  ∃ field fields,
    split (base +:+ String a rest) (String a "")
    = (field :: fields ++ split rest (String a ""))%list.
Proof.
  induction base as [|c base (field & fields & IH)].
  - rewrite append_nil_l, split_char_cons, bool_decide_eq_true_2 by done.
    by exists "", [].
  - rewrite append_cons, split_char_cons, IH.
    destruct (bool_decide (a = c)).
    + by exists "", (field :: fields).
    + by exists (String c field), fields.
Qed.

Lemma join_snoc sep (l : list string) x :
  l ≠ [] → join sep (l ++ [x]) = join sep l +:+ sep +:+ x.
Proof.
  intros Hl. rewrite join_app_head by done. done.
Qed.

Lemma file_type_app base rest :
  file_type (base +:+ "." +:+ rest) = file_type rest.
Proof.
  unfold file_type.
  change ("." +:+ rest) with (String "." rest).
  destruct (split_char_app "." base rest) as (field & fields & ->).
  pose proof (split_nonempty rest ".") as Hne.
  destruct (split rest ".") as [|x l] using rev_ind; [done|].
  by rewrite (app_assoc fields), app_comm_cons, !last_snoc.
Qed.

Lemma file_type_suffix file_name :
  file_name = file_type file_name
  ∨ ∃ base, file_name = base +:+ "." +:+ file_type file_name.
Proof.
  unfold file_type. pose proof (join_split_char "." file_name) as Hjoin.
  pose proof (split_nonempty file_name ".") as Hne.
  destruct (split file_name ".") as [|x l _] using rev_ind; [done|].
  rewrite last_snoc. cbn [default].
  destruct l as [|y l]; [by left|]. right.
  rewrite join_snoc in Hjoin by done. by eexists.
Qed.

Lemma split_char_sep_free a s :
  Forall (fun field => contains (String a "") field = false)
         (split s (String a "")).
Proof.
  induction s as [|c s IH]; [by repeat constructor|].
  rewrite split_char_cons.
  destruct (bool_decide (a = c)) eqn:Hc; [by constructor|].
  destruct (split s (String a "")) as [|field fields].
  - repeat constructor. by rewrite contains_cons, prefix_char_cons, Hc.
  - apply Forall_cons in IH as [Hfield Hfields]. constructor; [|done].
    by rewrite contains_cons, prefix_char_cons, Hc, Hfield.
Qed.

(** X18.  The file type is the text after the last dot of the name, the
    whole name when it has no dot: it holds no dot, and the name is the
    type alone or ends with a dot and the type.  So a name is handled as
    JSON exactly when it is [json] or ends with [.json], in lower case. *)
Theorem file_type_is_last_extension file_name :
  contains "." (file_type file_name) = false
  ∧ (file_name = file_type file_name
     ∨ ∃ base, file_name = base +:+ "." +:+ file_type file_name)
  ∧ (file_type file_name = "json"
     ↔ file_name = "json" ∨ ∃ base, file_name = base +:+ ".json").
Proof.
  split_and!.
  - unfold file_type.
    pose proof (split_char_sep_free "." file_name) as Hfree.
    destruct (last (split file_name ".")) as [field|] eqn:Hlast; [|done].
    apply last_Some in Hlast as [l Hl]. rewrite Hl in Hfree.
    apply Forall_app in Hfree as [_ Hfree].
    apply Forall_cons in Hfree as [Hfree _]. exact Hfree.
  - apply file_type_suffix.
  - split.
    + intros Hjson. destruct (file_type_suffix file_name) as [H|[base H]];
        rewrite Hjson in H; [by left|right; by exists base].
    + intros [->|[base ->]]; [done|].
      change ".json" with ("." +:+ "json"). by rewrite file_type_app.
Qed.

(** *** Writing and reading *)

Section Content.
Variable content : Type.
Variable as_str : content → option string.
Variable of_str : string → content.
Variable dumps : content → string.
Variable loads : string → option content.
Variable can_write : string → bool.



End Content.



End FileWorkerProps.
